(** * muMap: mesh descriptor cache and product-manifold filter

    A shallow embedding of
      - [src/meshcorr/product_manifold_filters/product_manifold_filter.py]
      - [src/meshcorr/tools/mesh_class.py]
    together with the properties of the two that the specification states.

    Conventions of the embedding.
      - A Python exception is a value [Raise e] of the type [result];
        code that can raise lives in the state-and-exception monad [M].
      - float64 numbers are idealised in [Float]: a finite float is a
        real number, and the three non-finite values of IEEE 754 are
        kept.  Rounding, overflow, underflow and the sign of zero are not
        modelled there; [Rounded] gives the kernel with its rounding,
        overflow and underflow, and carries the bounds on its entries.
      - A 2-D numpy array is the list of its rows. *)

From Stdlib Require Import String Reals Lra Lia ZArith Bool List Sorted.
Import ListNotations.

Set Implicit Arguments.

(* ================================================================= *)
(** ** Exceptions and the state-and-exception monad *)

Inductive exn : Type :=
| AttributeError           (* read of an attribute that was never bound *)
| UnboundLocalError        (* read of a local that was never bound *)
| ArrayError               (* IndexError or ValueError: indexing, shapes, unpacking *)
| KeyError                 (* read of a key that a dict does not hold *)
| External (what : string) (* raised by a collaborator outside this code *).

Inductive result (A : Type) : Type :=
| Ok (a : A)
| Raise (e : exn).

Arguments Ok {A} a.
Arguments Raise {A} e.

Definition result_bind {A B} (r : result A) (k : A -> result B) : result B :=
  match r with
  | Ok a => k a
  | Raise e => Raise e
  end.

(** A computation over a mutable store [S]: the store after the call is
    returned also when the call raises. *)
Definition M (S A : Type) : Type := S -> result A * S.

Definition ret {S A} (a : A) : M S A := fun s => (Ok a, s).

Definition bind {S A B} (c : M S A) (k : A -> M S B) : M S B :=
  fun s => match c s with
           | (Ok a, s') => k a s'
           | (Raise e, s') => (Raise e, s')
           end.

Definition lift {S A} (r : result A) : M S A := fun s => (r, s).

Definition get {S} : M S S := fun s => (Ok s, s).

Definition modify {S} (f : S -> S) : M S unit := fun s => (Ok tt, f s).

Declare Scope monad_scope.
Delimit Scope monad_scope with monad.
Notation "x <- c ;; k" := (bind c (fun x => k))
  (at level 61, c at next level, right associativity) : monad_scope.
Notation "' p <- c ;; k" := (bind c (fun x => match x with p => k end))
  (at level 61, p pattern, c at next level, right associativity) : monad_scope.
Notation "c ;;; k" := (bind c (fun _ => k))
  (at level 61, right associativity) : monad_scope.

(** [for _ in range(n): s = body(s)] *)
Fixpoint iterM {S T} (n : nat) (body : T -> M S T) (t : T) : M S T :=
  match n with
  | O => ret t
  | Datatypes.S n' => bind (body t) (iterM n' body)
  end.

Definition for_range {S T} (n : Z) (body : T -> M S T) (t : T) : M S T :=
  iterM (Z.to_nat n) body t.

(** Sequencing of a list of fallible steps, left to right. *)
Fixpoint mapR {A B} (f : A -> result B) (l : list A) : result (list B) :=
  match l with
  | [] => Ok []
  | a :: l' =>
      result_bind (f a) (fun b =>
      result_bind (mapR f l') (fun bs => Ok (b :: bs)))
  end.

(* ================================================================= *)
(** ** Idealised float64 *)

Module Float.

Local Open Scope R_scope.

Inductive float64 : Type :=
| Num (r : R)
| PInf
| NInf
| NaN.

Definition is_zero (r : R) : bool := if Req_dec_T r 0 then true else false.
Definition is_pos (r : R) : bool := if Rlt_dec 0 r then true else false.

(** The infinity with the sign of [r], NaN at zero. *)
Definition inf_of_sign (r : R) : float64 :=
  if is_zero r then NaN else if is_pos r then PInf else NInf.

Definition fneg (x : float64) : float64 :=
  match x with
  | Num r => Num (- r)
  | PInf => NInf
  | NInf => PInf
  | NaN => NaN
  end.

Definition fadd (x y : float64) : float64 :=
  match x, y with
  | NaN, _ | _, NaN => NaN
  | Num a, Num b => Num (a + b)
  | PInf, NInf | NInf, PInf => NaN
  | PInf, _ | _, PInf => PInf
  | NInf, _ | _, NInf => NInf
  end.

Definition fmul (x y : float64) : float64 :=
  match x, y with
  | NaN, _ | _, NaN => NaN
  | Num a, Num b => Num (a * b)
  | Num a, PInf | PInf, Num a => inf_of_sign a
  | Num a, NInf | NInf, Num a => fneg (inf_of_sign a)
  | PInf, PInf | NInf, NInf => PInf
  | PInf, NInf | NInf, PInf => NInf
  end.

(** numpy division: dividing by zero is a warning, not an exception. *)
Definition fdiv (x y : float64) : float64 :=
  match x, y with
  | NaN, _ | _, NaN => NaN
  | Num a, Num b => if is_zero b then inf_of_sign a else Num (a / b)
  | Num _, PInf | Num _, NInf => Num 0
  | PInf, Num b => if is_zero b then PInf else inf_of_sign b
  | NInf, Num b => if is_zero b then NInf else fneg (inf_of_sign b)
  | _, _ => NaN
  end.

Definition fexp (x : float64) : float64 :=
  match x with
  | Num r => Num (exp r)
  | PInf => PInf
  | NInf => Num 0
  | NaN => NaN
  end.

(** [np.maximum]: NaN wins over everything. *)
Definition fmax (x y : float64) : float64 :=
  match x, y with
  | NaN, _ | _, NaN => NaN
  | PInf, _ | _, PInf => PInf
  | NInf, z | z, NInf => z
  | Num a, Num b => Num (Rmax a b)
  end.

Definition finite (x : float64) : Prop :=
  match x with Num _ => True | _ => False end.

(** A finite value strictly above zero. *)
Definition positive (x : float64) : Prop :=
  match x with Num r => 0 < r | _ => False end.

(** A finite value in the half-open interval (0, 1]. *)
Definition unit_interval (x : float64) : Prop :=
  match x with Num r => 0 < r <= 1 | _ => False end.

End Float.
Export Float.

(* ================================================================= *)
(** ** numpy arrays as far as the filter uses them *)

Definition matrix : Type := list (list float64).

(** A numpy index into an axis of length [n]: negative indices count from
    the end, anything outside [-n, n) is an IndexError. *)
Definition np_index (n : nat) (i : Z) : result nat :=
  if ((0 <=? i) && (i <? Z.of_nat n))%Z then Ok (Z.to_nat i)
  else if ((- Z.of_nat n <=? i) && (i <? 0))%Z then Ok (Z.to_nat (i + Z.of_nat n))
  else Raise ArrayError.

(** [i] is a valid numpy index into an axis of length [n]. *)
Definition in_bounds (n : nat) (i : Z) : Prop :=
  (- Z.of_nat n <= i < Z.of_nat n)%Z.

(** [i] is a value of numpy's index type [intp], the signed 64-bit
    integer.  An index array of another integer type is cast to [intp]
    before it selects, so [np_index] describes the selection by the cast
    values. *)
Definition intp (i : Z) : Prop :=
  (- 2 ^ 63 <= i < 2 ^ 63)%Z.

(** [a[i]] for a 1-D sequence. *)
Definition item {A} (a : list A) (i : Z) : result A :=
  result_bind (np_index (length a) i) (fun n =>
  match nth_error a n with
  | Some x => Ok x
  | None => Raise ArrayError
  end).

(** [a[idx]] for an index array [idx]: selection along the first axis. *)
Definition take {A} (a : list A) (idx : list Z) : result (list A) :=
  mapR (item a) idx.

(** [a[:, idx]]: the same selection in every row. *)
Definition take_cols {A} (a : list (list A)) (idx : list Z)
  : result (list (list A)) :=
  mapR (fun row => take row idx) a.

(** Inner product of two rows, accumulated from 0.0. *)
Definition dot_rows (a b : list float64) : float64 :=
  fold_left fadd (map (fun ab => fmul (fst ab) (snd ab)) (combine a b)) (Num 0).

(** [a.dot(b.T)] for [a] of shape (n, ka) and [b] of shape (m, kb); numpy
    raises a ValueError unless [ka = kb]. *)
Definition dot_T (ka kb : nat) (a b : matrix) : result matrix :=
  if Nat.eqb ka kb
  then Ok (map (fun ra => map (fun rb => dot_rows ra rb) b) a)
  else Raise ArrayError.

(** [K.max()]: the largest entry; a ValueError on an array without entries. *)
Definition amax (K : matrix) : result float64 :=
  match concat K with
  | [] => Raise ArrayError
  | x :: xs => Ok (fold_left fmax xs x)
  end.

Declare Scope result_scope.
Delimit Scope result_scope with res.
Notation "x <- c ;; k" := (result_bind c (fun x => k))
  (at level 61, c at next level, right associativity) : result_scope.

(* ================================================================= *)
(** ** product_manifold_filter.py *)

Module Filter.

(** A correspondence: two index sequences, [i] into X and [j] into Y. *)
Definition correspondence : Type := list Z * list Z.

(** [(x/sigma)**2] *)
Definition fsqr (x : float64) : float64 := fmul x x.

(** [gaussian_kernel] at one entry: [np.exp(-0.5*(x/sigma)**2)]. *)
Definition gaussian (x sigma : float64) : float64 :=
  fexp (fmul (Num (-0.5)) (fsqr (fdiv x sigma))).

(** [gaussian_kernel(x, sigma)] on a 2-D array: numpy applies the
    expression entry by entry. *)
Definition gaussian_kernel (x : matrix) (sigma : float64) : matrix :=
  map (map (fun e => gaussian e sigma)) x.

(** [product_manifold_kernel(gx, gy, ix, iy, sigma)] (the module defines it
    twice with the same body; the second definition is the one in force). *)
Definition product_manifold_kernel
    (gx gy : matrix) (ix iy : list Z) (sigma : float64) : result matrix :=
  (let Kx := gaussian_kernel gx sigma in
   let Ky := gaussian_kernel gy sigma in
   Kxi <- take_cols Kx ix ;;
   Kyi <- take_cols Ky iy ;;
   K <- dot_T (length ix) (length iy) Kxi Kyi ;;
   m <- amax K ;;
   Ok (map (map (fun e => fdiv e m)) K))%res.

Section Refinement.

(** The assignment functor is any callable: it may keep state of its own
    (a store [St]) and it may raise. *)
Variable St : Type.

Definition strategy : Type := matrix -> M St correspondence.

Variable assignment_functor : strategy.
Variables gx gy : matrix.

(** One pass of the body of the [for] loop, on the loop variables
    [(i, j, sigma)]. *)
Definition loop_body (gamma : float64) (st : list Z * list Z * float64)
  : M St (list Z * list Z * float64) :=
  (let '(i, j, sigma) := st in
   P <- lift (product_manifold_kernel gx gy i j sigma) ;;
   ij <- assignment_functor P ;;
   ret (fst ij, snd ij, fmul sigma gamma))%monad.

Definition product_manifold_filter_correspondence
    (i j : list Z) (sigma gamma : float64) (iterations : Z)
  : M St correspondence :=
  (st <- for_range iterations (loop_body gamma) (i, j, sigma) ;;
   ret (fst (fst st), snd (fst st)))%monad.

Definition product_manifold_filter_assignment
    (P : matrix) (sigma gamma : float64) (iterations : Z)
  : M St correspondence :=
  (ij <- assignment_functor P ;;
   product_manifold_filter_correspondence
     (fst ij) (snd ij) sigma gamma iterations)%monad.

(** *** The algorithm as the specification words it *)

(** [gaussianKernel(G[p, idx], sigma)]: the Gaussian-weighted profile of
    the vertex whose row of the geodesic matrix is [row]. *)
Definition profile (row : list float64) (idx : list Z) (sigma : float64)
  : result (list float64) :=
  (d <- take row idx ;; Ok (map (fun x => gaussian x sigma) d))%res.

(** The kernel of one round: entry (p, q) is the dot product of the two
    profiles, and the whole is rescaled by its maximum entry. *)
Definition round_kernel (i j : list Z) (sigma : float64) : result matrix :=
  (px <- mapR (fun row => profile row i sigma) gx ;;
   py <- mapR (fun row => profile row j sigma) gy ;;
   K <- dot_T (length i) (length j) px py ;;
   m <- amax K ;;
   Ok (map (map (fun e => fdiv e m)) K))%res.

(** [n] rounds: build the kernel, replace the correspondence by the
    strategy's answer, anneal sigma; after the last round return. *)
Fixpoint rounds (n : nat) (i j : list Z) (sigma gamma : float64)
  : M St correspondence :=
  match n with
  | O => ret (i, j)
  | S n' =>
      (K <- lift (round_kernel i j sigma) ;;
       ij <- assignment_functor K ;;
       rounds n' (fst ij) (snd ij) (fmul sigma gamma) gamma)%monad
  end.

End Refinement.

(** A strategy instrumented with a counter of its calls. *)
Definition counted {St} (f : strategy St) : strategy (St * nat) :=
  fun K sc =>
    let (r, s') := f K (fst sc) in (r, (s', S (snd sc))).

End Filter.

(* ================================================================= *)
(** ** numpy arrays as far as the Mesh class uses them *)

(** A 1-D or a 2-D array.  [np.array([])] is the 1-D array without
    entries. *)
Inductive ndarray (A : Type) : Type :=
| Arr1 (xs : list A)
| Arr2 (rows : list (list A)).

Arguments Arr1 {A} xs.
Arguments Arr2 {A} rows.

Definition empty_array {A} : ndarray A := Arr1 [].

(** [a.size]: the number of entries. *)
Definition size {A} (a : ndarray A) : nat :=
  match a with
  | Arr1 xs => length xs
  | Arr2 rows => length (concat rows)
  end.

(** [a.shape[0]] *)
Definition shape0 {A} (a : ndarray A) : nat :=
  match a with
  | Arr1 xs => length xs
  | Arr2 rows => length rows
  end.

(** [a.copy()]: arrays are values here, a copy is the array itself. *)
Definition copy {A} (a : A) : A := a.

(** [a[idx]] for an index array [idx]. *)
Definition index_rows {A} (a : ndarray A) (idx : list Z) : result (ndarray A) :=
  match a with
  | Arr1 xs => (r <- take xs idx ;; Ok (Arr1 r))%res
  | Arr2 rows => (r <- take rows idx ;; Ok (Arr2 r))%res
  end.

(** [a[:, idx]]; an IndexError on a 1-D array. *)
Definition index_cols {A} (a : ndarray A) (idx : list Z) : result (ndarray A) :=
  match a with
  | Arr1 _ => Raise ArrayError
  | Arr2 rows => (r <- take_cols rows idx ;; Ok (Arr2 r))%res
  end.

(** [a[idx][:, idx]] *)
Definition submatrix {A} (a : ndarray A) (idx : list Z) : result (ndarray A) :=
  (r <- index_rows a idx ;; index_cols r idx)%res.

(** The slice [xs[:k]]: the first [k] entries, or all but the last [-k]
    when [k] is negative.  Slices never raise. *)
Definition slice_to {A} (k : Z) (xs : list A) : list A :=
  if (0 <=? k)%Z then firstn (Z.to_nat k) xs
  else firstn (length xs - Z.to_nat (- k)) xs.

(** [a[..., :k]]: the slice along the last axis. *)
Definition slice_last {A} (k : Z) (a : ndarray A) : ndarray A :=
  match a with
  | Arr1 xs => Arr1 (slice_to k xs)
  | Arr2 rows => Arr2 (map (slice_to k) rows)
  end.

(** What the Laplacian and mass-matrix slots hold: the empty dense array
    that [__init__] stores, or a scipy sparse matrix, whose [size] is the
    number of stored entries. *)
Inductive spmatrix : Type :=
| SpEmpty
| Sparse (nrows ncols : nat) (entries : list (nat * nat * float64)).

Definition sp_size (a : spmatrix) : nat :=
  match a with
  | SpEmpty => 0
  | Sparse _ _ es => length es
  end.

(** A Python dict with string keys, in insertion order. *)
Definition dict (A : Type) : Type := list (string * A).

Fixpoint dict_get {A} (d : dict A) (key : string) : option A :=
  match d with
  | [] => None
  | (k0, a) :: d' => if String.eqb k0 key then Some a else dict_get d' key
  end.

(** [d[key] = a] *)
Fixpoint dict_set {A} (d : dict A) (key : string) (a : A) : dict A :=
  match d with
  | [] => [(key, a)]
  | (k0, a0) :: d' =>
      if String.eqb k0 key then (k0, a) :: d' else (k0, a0) :: dict_set d' key a
  end.

Definition keys {A} (d : dict A) : list string := map fst d.

(* ================================================================= *)
(** ** mesh_class.py *)

Module MeshClass.

Definition vertices : Type := ndarray float64.
Definition faces : Type := ndarray Z.

(** The instance attributes of a [Mesh].  [__gaussian] is the only one
    that [__init__] does not bind: [None] is the absent attribute. *)
Record Mesh : Type := mkMesh {
  __v : vertices;
  __f : faces;
  __g : ndarray float64;
  __k : Z;
  __l : spmatrix;
  __mass : spmatrix;
  __normals : ndarray float64;
  __eigen : list (ndarray float64);
  __scalars : dict (ndarray float64);
  __type : string;
  __gaussian : option (ndarray float64)
}.

(** The collaborators the class calls: the module [geometric_utilities]
    (imported as [util]) and the functions of [igl].  Their code is not part
    of the class; each is a function of its arguments that returns or
    raises.  [vedo_decimate] returns a 5-tuple of which the class keeps the
    vertices, the faces and the index array; its keyword arguments [N] and
    [frac] are options, [None] when the caller leaves one out. *)
Record Util : Type := mkUtil {
  reorder_mesh : vertices -> faces -> list Z -> result (vertices * faces);
  geodesicMatrix : vertices -> faces -> result (ndarray float64);
  vedo_decimate :
    vertices -> faces -> option Z -> option float64 ->
    result (vertices * faces * list Z);
  vedo_subdivide : vertices -> faces -> result (vertices * faces * list Z);
  extrapolate_geodesic_matrix :
    vertices -> vertices -> ndarray float64 -> faces -> result (ndarray float64);
  gaussianCurvature : vertices -> faces -> result (ndarray float64);
  laplace_eigen_decomposition :
    spmatrix -> spmatrix -> Z -> result (list (ndarray float64));
  per_vertex_normals : vertices -> faces -> result (ndarray float64);
  massmatrix : vertices -> faces -> result spmatrix;
  cotmatrix : vertices -> faces -> result spmatrix
}.

(** [Mesh(v, f, g, k, type)] *)
Definition __init__ (v : vertices) (f : faces) (g : ndarray float64)
    (k : Z) (type : string) : Mesh :=
  {| __v := v; __f := f; __g := g; __k := k;
     __l := SpEmpty; __mass := SpEmpty; __normals := empty_array;
     __eigen := [empty_array; empty_array];
     __scalars := []; __type := type; __gaussian := None |}.

(** *** Assignments to one attribute *)

Definition with_v (x : vertices) (m : Mesh) : Mesh :=
  mkMesh x (__f m) (__g m) (__k m) (__l m) (__mass m) (__normals m)
         (__eigen m) (__scalars m) (__type m) (__gaussian m).
Definition with_f (x : faces) (m : Mesh) : Mesh :=
  mkMesh (__v m) x (__g m) (__k m) (__l m) (__mass m) (__normals m)
         (__eigen m) (__scalars m) (__type m) (__gaussian m).
Definition with_g (x : ndarray float64) (m : Mesh) : Mesh :=
  mkMesh (__v m) (__f m) x (__k m) (__l m) (__mass m) (__normals m)
         (__eigen m) (__scalars m) (__type m) (__gaussian m).
Definition with_k (x : Z) (m : Mesh) : Mesh :=
  mkMesh (__v m) (__f m) (__g m) x (__l m) (__mass m) (__normals m)
         (__eigen m) (__scalars m) (__type m) (__gaussian m).
Definition with_l (x : spmatrix) (m : Mesh) : Mesh :=
  mkMesh (__v m) (__f m) (__g m) (__k m) x (__mass m) (__normals m)
         (__eigen m) (__scalars m) (__type m) (__gaussian m).
Definition with_mass (x : spmatrix) (m : Mesh) : Mesh :=
  mkMesh (__v m) (__f m) (__g m) (__k m) (__l m) x (__normals m)
         (__eigen m) (__scalars m) (__type m) (__gaussian m).
Definition with_normals (x : ndarray float64) (m : Mesh) : Mesh :=
  mkMesh (__v m) (__f m) (__g m) (__k m) (__l m) (__mass m) x
         (__eigen m) (__scalars m) (__type m) (__gaussian m).
Definition with_eigen (x : list (ndarray float64)) (m : Mesh) : Mesh :=
  mkMesh (__v m) (__f m) (__g m) (__k m) (__l m) (__mass m) (__normals m)
         x (__scalars m) (__type m) (__gaussian m).
Definition with_scalars (x : dict (ndarray float64)) (m : Mesh) : Mesh :=
  mkMesh (__v m) (__f m) (__g m) (__k m) (__l m) (__mass m) (__normals m)
         (__eigen m) x (__type m) (__gaussian m).
Definition with_gaussian (x : ndarray float64) (m : Mesh) : Mesh :=
  mkMesh (__v m) (__f m) (__g m) (__k m) (__l m) (__mass m) (__normals m)
         (__eigen m) (__scalars m) (__type m) (Some x).

(** [self.N()] *)
Definition N (m : Mesh) : nat := shape0 (__v m).

(** *** Setters.  Each one is the assignment in its body. *)

Definition set_v (v : vertices) : M Mesh unit := modify (with_v v).
Definition set_f (f : faces) : M Mesh unit := modify (with_f f).
Definition set_g (g : ndarray float64) : M Mesh unit := modify (with_g g).
Definition set_l (l : spmatrix) : M Mesh unit := modify (with_l l).
Definition set_mass (x : spmatrix) : M Mesh unit := modify (with_mass x).
Definition set_normals (x : ndarray float64) : M Mesh unit :=
  modify (with_normals x).
Definition set_eigen (x : list (ndarray float64)) : M Mesh unit :=
  modify (with_eigen x).
Definition set_gaussian (x : ndarray float64) : M Mesh unit :=
  modify (with_gaussian x).

(** The setter of [k]: truncate the cached eigenbasis when the rank does
    not grow, empty it when it grows; then store the rank. *)
Definition set_k (k : Z) : M Mesh unit :=
  (self <- get ;;
   modify (with_eigen
             (if (k <=? __k self)%Z
              then map (slice_last k) (__eigen self)
              else [empty_array; empty_array])) ;;;
   modify (with_k k))%monad.

(** *** Getters *)

Section Getters.

Variable util : Util.

Definition v : M Mesh vertices := (self <- get ;; ret (__v self))%monad.
Definition f : M Mesh faces := (self <- get ;; ret (__f self))%monad.
Definition k : M Mesh Z := (self <- get ;; ret (__k self))%monad.
Definition type : M Mesh string := (self <- get ;; ret (__type self))%monad.
Definition scalars : M Mesh (dict (ndarray float64)) :=
  (self <- get ;; ret (__scalars self))%monad.

Definition g : M Mesh (ndarray float64) :=
  (self <- get ;;
   (if Nat.eqb (size (__g self)) 0 then
      if Nat.leb (N self) 500 then
        x <- lift (geodesicMatrix util (__v self) (__f self)) ;;
        modify (with_g x)
      else
        d <- lift (vedo_decimate util (__v self) (__f self) (Some 500%Z) None) ;;
        let '(pv, pf, _) := d in
        pg <- lift (geodesicMatrix util pv pf) ;;
        x <- lift (extrapolate_geodesic_matrix util pv (__v self) pg pf) ;;
        modify (with_g x)
    else ret tt) ;;;
   self <- get ;;
   ret (__g self))%monad.

Definition gaussian : M Mesh (ndarray float64) :=
  (self <- get ;;
   cached <- lift (match __gaussian self with
                   | Some a => Ok a
                   | None => Raise AttributeError
                   end) ;;
   (if Nat.eqb (size cached) 0 then
      x <- lift (gaussianCurvature util (__v self) (__f self)) ;;
      modify (with_gaussian x)
    else ret tt) ;;;
   self <- get ;;
   lift (match __gaussian self with
         | Some a => Ok a
         | None => Raise AttributeError
         end))%monad.

Definition normals : M Mesh (ndarray float64) :=
  (self <- get ;;
   (if Nat.eqb (size (__normals self)) 0 then
      x <- lift (per_vertex_normals util (__v self) (__f self)) ;;
      modify (with_normals x)
    else ret tt) ;;;
   self <- get ;;
   ret (__normals self))%monad.

Definition mass : M Mesh spmatrix :=
  (self <- get ;;
   (if Nat.eqb (sp_size (__mass self)) 0 then
      x <- lift (massmatrix util (__v self) (__f self)) ;;
      modify (with_mass x)
    else ret tt) ;;;
   self <- get ;;
   ret (__mass self))%monad.

Definition l : M Mesh spmatrix :=
  (self <- get ;;
   (if Nat.eqb (sp_size (__l self)) 0 then
      x <- lift (cotmatrix util (__v self) (__f self)) ;;
      modify (with_l x)
    else ret tt) ;;;
   self <- get ;;
   ret (__l self))%monad.

Definition eigen : M Mesh (list (ndarray float64)) :=
  (self <- get ;;
   (if existsb (fun e => Nat.eqb (size e) 0) (__eigen self) then
      lap <- l ;;
      ms <- mass ;;
      rank <- k ;;
      x <- lift (laplace_eigen_decomposition util lap ms rank) ;;
      modify (with_eigen x)
    else ret tt) ;;;
   self <- get ;;
   ret (__eigen self))%monad.

End Getters.

(** *** Indexing and resampling *)

Section Resampling.

Variable util : Util.

(** [for fn in self.scalars: res.scalars[fn] = self.scalars[fn][idx].copy()]
    with [src] the dict of [self], [fns] the keys still to visit and [res]
    the dict of the new mesh. *)
Fixpoint carry_scalars (src : dict (ndarray float64)) (fns : list string)
    (idx : list Z) (res : dict (ndarray float64))
  : result (dict (ndarray float64)) :=
  match fns with
  | [] => Ok res
  | fn :: rest =>
      (a <- match dict_get src fn with
            | Some a => Ok a
            | None => Raise KeyError
            end ;;
       x <- index_rows a idx ;;
       carry_scalars src rest idx (dict_set res fn (copy x)))%res
  end.

(** [evals, evecs = ...]: unpacking needs exactly two items. *)
Definition unpack2 {A} (xs : list A) : result (A * A) :=
  match xs with
  | [a; b] => Ok (a, b)
  | _ => Raise ArrayError
  end.

(** [self[idx]] *)
Definition __getitem__ (idx : list Z) : M Mesh Mesh :=
  (self <- get ;;
   vf <- (if Nat.eqb (length idx) (N self)
          then lift (reorder_mesh util (__v self) (__f self) idx)
          else
            sel <- lift (index_rows (__v self) idx) ;;
            ret (sel, empty_array)) ;;
   sub <- (if Nat.eqb (size (__g self)) 0 then ret empty_array
           else gm <- g util ;; lift (submatrix gm idx)) ;;
   ev <- eigen util ;;
   lift (unpack2 ev) ;;;
   rank <- k ;;
   ty <- type ;;
   let res := __init__ (fst vf) (snd vf) sub rank ty in
   src <- scalars ;;
   sc <- lift (carry_scalars src (keys src) idx (__scalars res)) ;;
   ret (with_scalars sc res))%monad.

(** [self.decimate(N, frac)] *)
Definition decimate (n : option Z) (frac : option float64)
  : M Mesh (Mesh * list Z) :=
  (self <- get ;;
   d <- lift (vedo_decimate util (copy (__v self)) (copy (__f self)) n frac) ;;
   let '(dv, df, idx) := d in
   sub <- (if Nat.eqb (size (__g self)) 0 then ret empty_array
           else gm <- g util ;; x <- lift (submatrix gm idx) ;; ret (copy x)) ;;
   rank <- k ;;
   ty <- type ;;
   let res := __init__ dv df sub rank ty in
   src <- scalars ;;
   sc <- lift (carry_scalars src (keys src) idx (__scalars res)) ;;
   ret (with_scalars sc res, idx))%monad.

(** [while (v.shape[0] < target): v,f,idx = util.vedo_subdivide(v, f)].
    The loop ends only if subdividing reaches the target; [fuel] bounds
    the number of passes and [None] is a loop that needs more.  [idx] is
    bound by the first pass only. *)
Fixpoint subdivide_loop (fuel : nat) (target : Z)
    (sv : vertices) (sf : faces) (idx : option (list Z))
  : option (result (vertices * faces * option (list Z))) :=
  if (Z.of_nat (shape0 sv) <? target)%Z then
    match fuel with
    | O => None
    | S fuel' =>
        match vedo_subdivide util sv sf with
        | Ok (sv', sf', idx') => subdivide_loop fuel' target sv' sf' (Some idx')
        | Raise e => Some (Raise e)
        end
    end
  else Some (Ok (sv, sf, idx)).

(** [self.upsample(target)] *)
Definition upsample (fuel : nat) (target : Z)
  : Mesh -> option (result (Mesh * list Z) * Mesh) :=
  fun self =>
    match subdivide_loop fuel target (copy (__v self)) (copy (__f self)) None with
    | None => None
    | Some (Raise e) => Some (Raise e, self)
    | Some (Ok (uv, uf, idx)) =>
        Some ((src_v <- v ;;
               gm <- g util ;;
               src_f <- f ;;
               ug <- lift (extrapolate_geodesic_matrix util src_v uv gm src_f) ;;
               rank <- k ;;
               ty <- type ;;
               let res := __init__ uv uf ug rank ty in
               i <- lift (match idx with
                          | Some i => Ok i
                          | None => Raise UnboundLocalError
                          end) ;;
               ret (res, i))%monad self)
    end.

End Resampling.

End MeshClass.

(* ================================================================= *)
(** ** Vocabulary of the statements about the Mesh class *)

Module MeshSpec.

Import MeshClass.

(** Every derived cache of [m] holds a value. *)
Definition populated (m : Mesh) : bool :=
  negb (Nat.eqb (sp_size (__l m)) 0)
  && negb (Nat.eqb (sp_size (__mass m)) 0)
  && negb (existsb (fun e => Nat.eqb (size e) 0) (__eigen m))
  && negb (Nat.eqb (size (__g m)) 0)
  && negb (Nat.eqb (size (__normals m)) 0).

(** Every derived cache of [m] is empty, so that the next read of each
    derived property computes it. *)
Definition cleared (m : Mesh) : bool :=
  Nat.eqb (sp_size (__l m)) 0
  && Nat.eqb (sp_size (__mass m)) 0
  && existsb (fun e => Nat.eqb (size e) 0) (__eigen m)
  && Nat.eqb (size (__g m)) 0
  && Nat.eqb (size (__normals m)) 0.

(** The geodesic matrix of the geometry of [m] as the specification words
    it: exact up to 500 vertices; above, the exact matrix of a proxy
    decimated to 500 vertices, extrapolated back to all vertices. *)
Definition geodesic_of (util : Util) (m : Mesh) : result (ndarray float64) :=
  if Nat.leb (N m) 500 then geodesicMatrix util (__v m) (__f m)
  else
    (d <- vedo_decimate util (__v m) (__f m) (Some 500%Z) None ;;
     let '(pv, pf, _) := d in
     pg <- geodesicMatrix util pv pf ;;
     extrapolate_geodesic_matrix util pv (__v m) pg pf)%res.

(** Every named field of [src] is in [dst], restricted to the vertices
    [idx], and [dst] names nothing else. *)
Definition carried (src : dict (ndarray float64)) (idx : list Z)
    (dst : dict (ndarray float64)) : Prop :=
  forall fn,
    match dict_get src fn with
    | Some a => exists x, index_rows a idx = Ok x /\ dict_get dst fn = Some x
    | None => dict_get dst fn = None
    end.

(** The geodesic matrix of [res] is the cached matrix of [m] sub-selected
    as [G[idx][:, idx]], and empty when [m] has none cached. *)
Definition geodesic_subselected (m : Mesh) (idx : list Z) (res : Mesh) : Prop :=
  if Nat.eqb (size (__g m)) 0 then __g res = empty_array
  else submatrix (__g m) idx = Ok (__g res).

(** The geometry of [self[idx]]: the reordered mesh when [idx] has as many
    entries as there are vertices, the selected vertices without faces
    otherwise. *)
Definition selected_geometry (util : Util) (m : Mesh) (idx : list Z)
  : result (vertices * faces) :=
  if Nat.eqb (length idx) (N m)
  then reorder_mesh util (__v m) (__f m) idx
  else (sel <- index_rows (__v m) idx ;; Ok (sel, empty_array))%res.

(** The geodesic matrix handed to a sub-selected mesh. *)
Definition selected_geodesics (m : Mesh) (idx : list Z)
  : result (ndarray float64) :=
  if Nat.eqb (size (__g m)) 0 then Ok empty_array else submatrix (__g m) idx.

(** The lazily derived properties, what their caches hold, and a read of
    one of them through its getter. *)
Inductive derived : Type :=
| Laplacian | MassMatrix | Eigenbasis | GeodesicMatrix | Normals.

Inductive cached : Type :=
| CSparse (x : spmatrix)
| CArray (x : ndarray float64)
| CBasis (x : list (ndarray float64)).

Definition cache (d : derived) (m : Mesh) : cached :=
  match d with
  | Laplacian => CSparse (__l m)
  | MassMatrix => CSparse (__mass m)
  | Eigenbasis => CBasis (__eigen m)
  | GeodesicMatrix => CArray (__g m)
  | Normals => CArray (__normals m)
  end.

Definition read (util : Util) (d : derived) : M Mesh cached :=
  match d with
  | Laplacian => (x <- l util ;; ret (CSparse x))%monad
  | MassMatrix => (x <- mass util ;; ret (CSparse x))%monad
  | Eigenbasis => (x <- eigen util ;; ret (CBasis x))%monad
  | GeodesicMatrix => (x <- g util ;; ret (CArray x))%monad
  | Normals => (x <- normals util ;; ret (CArray x))%monad
  end.

(** *** Collaborators and meshes for the examples *)

(** Collaborators that raise whenever they are called: a read that
    returns under them has computed nothing. *)
Definition unavailable : Util :=
  {| reorder_mesh := fun _ _ _ => Raise (External "reorder_mesh");
     geodesicMatrix := fun _ _ => Raise (External "geodesicMatrix");
     vedo_decimate := fun _ _ _ _ => Raise (External "vedo_decimate");
     vedo_subdivide := fun _ _ => Raise (External "vedo_subdivide");
     extrapolate_geodesic_matrix :=
       fun _ _ _ _ => Raise (External "extrapolate_geodesic_matrix");
     gaussianCurvature := fun _ _ => Raise (External "gaussianCurvature");
     laplace_eigen_decomposition :=
       fun _ _ _ => Raise (External "laplace_eigen_decomposition");
     per_vertex_normals := fun _ _ => Raise (External "per_vertex_normals");
     massmatrix := fun _ _ => Raise (External "massmatrix");
     cotmatrix := fun _ _ => Raise (External "cotmatrix") |}.

(** The all-zero square matrix over [n] vertices. *)
Definition zeros (n : nat) : ndarray float64 :=
  Arr2 (repeat (repeat (Num 0) n) n).

(** Simple collaborators: distances are all zero, decimation keeps the
    first vertex, subdivision doubles the vertex list, reordering permutes
    the vertices, and the eigensolver raises. *)
Definition simple : Util :=
  {| reorder_mesh :=
       fun sv sf idx => (r <- index_rows sv idx ;; Ok (r, sf))%res;
     geodesicMatrix := fun sv _ => Ok (zeros (shape0 sv));
     vedo_decimate :=
       fun sv sf _ _ => (r <- index_rows sv [0%Z] ;; Ok (r, sf, [0%Z]))%res;
     vedo_subdivide :=
       fun sv sf =>
         match sv with
         | Arr2 rows =>
             Ok (Arr2 (rows ++ rows), sf,
                 map Z.of_nat (seq 0 (length rows)))
         | Arr1 _ => Raise (External "vedo_subdivide")
         end;
     extrapolate_geodesic_matrix := fun _ dv _ _ => Ok (zeros (shape0 dv));
     gaussianCurvature := fun sv _ => Ok (Arr1 (repeat (Num 0) (shape0 sv)));
     laplace_eigen_decomposition :=
       fun _ _ _ => Raise (External "laplace_eigen_decomposition");
     per_vertex_normals := fun sv _ => Ok sv;
     massmatrix := fun sv _ => Ok (Sparse (shape0 sv) (shape0 sv) [(O, O, Num 1)]);
     cotmatrix := fun sv _ => Ok (Sparse (shape0 sv) (shape0 sv) [(O, O, Num 1)]) |}.

(** A triangle. *)
Definition triangle_v : vertices :=
  Arr2 [[Num 0; Num 0; Num 0]; [Num 1; Num 0; Num 0]; [Num 0; Num 1; Num 0]].
Definition triangle_f : faces := Arr2 [[0; 1; 2]]%Z.

(** A unit square of two triangles. *)
Definition square_v : vertices :=
  Arr2 [[Num 0; Num 0; Num 0]; [Num 1; Num 0; Num 0];
        [Num 1; Num 1; Num 0]; [Num 0; Num 1; Num 0]].
Definition square_f : faces := Arr2 [[0; 1; 2]; [0; 2; 3]]%Z.

(** A triangle mesh at rank 2 with every cache populated and one scalar
    field. *)
Definition cached_triangle : Mesh :=
  {| __v := triangle_v;
     __f := triangle_f;
     __g := Arr2 [[Num 0; Num 1; Num 1]; [Num 1; Num 0; Num 2]; [Num 1; Num 2; Num 0]];
     __k := 2;
     __l := Sparse 3 3 [(O, O, Num 1)];
     __mass := Sparse 3 3 [(O, O, Num 1)];
     __normals := Arr2 [[Num 0; Num 0; Num 1]; [Num 0; Num 0; Num 1]; [Num 0; Num 0; Num 1]];
     __eigen := [Arr1 [Num 0; Num 3];
                 Arr2 [[Num 1; Num 1]; [Num 1; Num 0]; [Num 1; Num (-1)]]];
     __scalars := [("height"%string, Arr1 [Num 5; Num 6; Num 7])];
     __type := "triangle"%string;
     __gaussian := None |}.

(** The same triangle as [__init__] makes it. *)
Definition fresh_triangle : Mesh :=
  __init__ triangle_v triangle_f empty_array 2 "triangle"%string.

(** 501 vertices without faces, freshly constructed. *)
Definition large_cloud : Mesh :=
  __init__ (Arr2 (repeat [Num 0; Num 0; Num 0] 501)) empty_array empty_array
           2 "cloud"%string.

End MeshSpec.

(* ================================================================= *)
(** ** Further vocabulary for the filter *)

Module FilterSpec.

Import Filter.

(** Entry (p, q) of a 2-D array, when there is one. *)
Definition entry (K : matrix) (p q : nat) : option float64 :=
  match nth_error K p with
  | Some row => nth_error row q
  | None => None
  end.

(** [np.arange(n)] *)
Definition arange (n : nat) : list Z := map Z.of_nat (seq 0 n).

(** The bandwidth after [n] passes of [sigma *= gamma]. *)
Fixpoint anneal (n : nat) (sigma gamma : float64) : float64 :=
  match n with
  | O => sigma
  | S n' => anneal n' (fmul sigma gamma) gamma
  end.

(** Inputs on which the kernel can be built: both matrices have a row,
    the index sequences have one length, and every index is within every
    row it selects from. *)
Definition kernel_inputs_ok (gx gy : matrix) (ix iy : list Z) : Prop :=
  gx <> [] /\ gy <> []
  /\ length ix = length iy
  /\ Forall (fun row => Forall (in_bounds (length row)) ix) gx
  /\ Forall (fun row => Forall (in_bounds (length row)) iy) gy.

(** The strategy that answers [(i, j)] whatever the kernel. *)
Definition constant_strategy (i j : list Z) : strategy unit :=
  fun _ s => (Ok (i, j), s).

End FilterSpec.

(* ================================================================= *)
(** ** mesh_class.py, further methods *)

Module MeshMethods.

Import MeshClass MeshSpec.

(** [for fn in self.scalars: res.scalars[fn] = self.scalars[fn].copy()] *)
Fixpoint copy_scalars (src : dict (ndarray float64)) (fns : list string)
    (res : dict (ndarray float64)) : result (dict (ndarray float64)) :=
  match fns with
  | [] => Ok res
  | fn :: rest =>
      (a <- match dict_get src fn with
            | Some a => Ok a
            | None => Raise KeyError
            end ;;
       copy_scalars src rest (dict_set res fn (copy a)))%res
  end.

(** [self.copy()]: a new Mesh from the attributes [v], [f], [g], [k] and
    [type], then assignments to its [mass], [normals] and [eigen], then the
    scalar fields. *)
Definition copy : M Mesh Mesh :=
  (self <- get ;;
   let res := __init__ (copy (__v self)) (copy (__f self)) (copy (__g self))
                       (__k self) (__type self) in
   let res := with_mass (copy (__mass self)) res in
   let res := with_normals (copy (__normals self)) res in
   let res := with_eigen (map (fun e => copy e) (__eigen self)) res in
   src <- scalars ;;
   sc <- lift (copy_scalars src (keys src) (__scalars res)) ;;
   ret (with_scalars sc res))%monad.

(** [np.sqrt] of a float64: NaN below zero. *)
Definition fsqrt (x : float64) : float64 :=
  match x with
  | Num r => if Rlt_dec r 0 then NaN else Num (sqrt r)
  | PInf => PInf
  | NInf => NaN
  | NaN => NaN
  end.

(** An operation applied to every entry of an array. *)
Definition array_map {A B} (h : A -> B) (a : ndarray A) : ndarray B :=
  match a with
  | Arr1 xs => Arr1 (map h xs)
  | Arr2 rows => Arr2 (map (map h) rows)
  end.

(** The entries of an array. *)
Definition entries {A} (a : ndarray A) : list A :=
  match a with
  | Arr1 xs => xs
  | Arr2 rows => concat rows
  end.

(** [self.normalise()], with [area] the collaborator [util.area] that
    [self.area()] calls on the vertices and faces. *)
Definition normalise (area : vertices -> faces -> result float64)
  : M Mesh unit :=
  (self <- get ;;
   a <- lift (area (__v self) (__f self)) ;;
   let norm := fsqrt a in
   modify (fun m => with_v (array_map (fun x => fdiv x norm) (__v m)) m) ;;;
   modify (fun m => with_g (array_map (fun x => fdiv x norm) (__g m)) m))%monad.

(** A cached value that the getters take for present. *)
Definition present (c : cached) : bool :=
  match c with
  | CSparse x => negb (Nat.eqb (sp_size x) 0)
  | CArray x => negb (Nat.eqb (size x) 0)
  | CBasis xs => negb (existsb (fun e => Nat.eqb (size e) 0) xs)
  end.

(** Collaborators whose subdivision returns the mesh it was given. *)
Definition stalled : Util :=
  {| reorder_mesh := reorder_mesh simple;
     geodesicMatrix := geodesicMatrix simple;
     vedo_decimate := vedo_decimate simple;
     vedo_subdivide := fun sv sf => Ok (sv, sf, []);
     extrapolate_geodesic_matrix := extrapolate_geodesic_matrix simple;
     gaussianCurvature := gaussianCurvature simple;
     laplace_eigen_decomposition := laplace_eigen_decomposition simple;
     per_vertex_normals := per_vertex_normals simple;
     massmatrix := massmatrix simple;
     cotmatrix := cotmatrix simple |}.

(** Collaborators as [simple], with an eigensolver that returns [rank]
    eigenvalues 0 and the N x rank matrix of ones. *)
Definition solving : Util :=
  {| reorder_mesh := reorder_mesh simple;
     geodesicMatrix := geodesicMatrix simple;
     vedo_decimate := vedo_decimate simple;
     vedo_subdivide := vedo_subdivide simple;
     extrapolate_geodesic_matrix := extrapolate_geodesic_matrix simple;
     gaussianCurvature := gaussianCurvature simple;
     laplace_eigen_decomposition :=
       fun lap _ rank =>
         match lap with
         | Sparse n _ _ =>
             Ok [Arr1 (repeat (Num 0) (Z.to_nat rank));
                 Arr2 (repeat (repeat (Num 1) (Z.to_nat rank)) n)]
         | SpEmpty => Raise (External "laplace_eigen_decomposition")
         end;
     per_vertex_normals := per_vertex_normals simple;
     massmatrix := massmatrix simple;
     cotmatrix := cotmatrix simple |}.

End MeshMethods.

(* ================================================================= *)
(** ** The kernel in rounded arithmetic *)

(** float64 arithmetic with its rounding.  The result of a division or a
    multiplication of two finite floats is the rounding of the exact result
    (to a finite float or, on overflow, to an infinity); [np.exp] and the
    inner products of [.dot] are functions the library supplies, of which
    only what [ieee_like] states is used: an inner product may be
    accumulated in any order, and differently at each position (p, q). *)

Module Rounded.

Local Open Scope R_scope.

Record arith : Type := mkArith {
  round : R -> float64;
  exp64 : R -> float64;
  dot64 : nat -> nat -> list float64 -> list float64 -> float64
}.

(** The order of float64; NaN is not ordered. *)
Definition fle (x y : float64) : Prop :=
  match x, y with
  | NaN, _ | _, NaN => False
  | NInf, _ | _, PInf => True
  | Num a, Num b => a <= b
  | _, _ => False
  end.

(** A finite value in the closed interval [0, 1]. *)
Definition unit01 (x : float64) : Prop :=
  match x with Num r => 0 <= r <= 1 | _ => False end.

(** A finite value that is not negative. *)
Definition nonneg (x : float64) : Prop :=
  match x with Num r => 0 <= r | _ => False end.

(** What is used of float64 arithmetic: rounding is monotone and leaves
    0 and 1 alone; [np.exp] of a finite argument that is not positive lies
    in [0, 1] (it is 0.0 when it underflows); an inner product of two rows
    of values in [0, 1] is finite and not negative, and 0.0 for rows
    without entries. *)
Record ieee_like (a : arith) : Prop := mkIeee {
  round_mono : forall x y, x <= y -> fle (round a x) (round a y);
  round_0 : round a 0 = Num 0;
  round_1 : round a 1 = Num 1;
  exp64_unit : forall r, r <= 0 -> unit01 (exp64 a r);
  dot64_nil : forall p q, dot64 a p q [] [] = Num 0;
  dot64_range :
    forall p q u w,
      Forall unit01 u -> Forall unit01 w -> length u = length w ->
      exists r, dot64 a p q u w = Num r /\ 0 <= r
}.

Section Kernel.

Variable a : arith.

Definition fdiv64 (x y : float64) : float64 :=
  match x, y with
  | Num u, Num w => if is_zero w then inf_of_sign u else round a (u / w)
  | _, _ => fdiv x y
  end.

Definition fmul64 (x y : float64) : float64 :=
  match x, y with
  | Num u, Num w => round a (u * w)
  | _, _ => fmul x y
  end.

Definition fexp64 (x : float64) : float64 :=
  match x with
  | Num r => exp64 a r
  | _ => fexp x
  end.

(** [np.exp(-0.5*(x/sigma)**2)] at one entry. *)
Definition gaussian64 (x sigma : float64) : float64 :=
  fexp64 (fmul64 (Num (-0.5)) (fmul64 (fdiv64 x sigma) (fdiv64 x sigma))).

Definition gaussian_kernel64 (x : matrix) (sigma : float64) : matrix :=
  map (map (fun e => gaussian64 e sigma)) x.

(** [map] with the position of each item. *)
Fixpoint map_from {A B} (p : nat) (h : nat -> A -> B) (l : list A) : list B :=
  match l with
  | [] => []
  | x :: l' => h p x :: map_from (S p) h l'
  end.

(** [Kx[:,ix].dot(Ky[:,iy].T)]: the kernel before it is rescaled. *)
Definition unscaled_kernel64
    (gx gy : matrix) (ix iy : list Z) (sigma : float64) : result matrix :=
  (let Kx := gaussian_kernel64 gx sigma in
   let Ky := gaussian_kernel64 gy sigma in
   Kxi <- take_cols Kx ix ;;
   Kyi <- take_cols Ky iy ;;
   if Nat.eqb (length ix) (length iy)
   then Ok (map_from 0 (fun p ra => map_from 0 (fun q rb => dot64 a p q ra rb) Kyi) Kxi)
   else Raise ArrayError)%res.

(** [product_manifold_kernel(gx, gy, ix, iy, sigma)] *)
Definition product_manifold_kernel64
    (gx gy : matrix) (ix iy : list Z) (sigma : float64) : result matrix :=
  (K <- unscaled_kernel64 gx gy ix iy sigma ;;
   m <- amax K ;;
   Ok (map (map (fun e => fdiv64 e m)) K))%res.

End Kernel.

(** Arithmetic without rounding error: the arithmetic of [Float] and
    [dot_rows]. *)
Definition exact : arith :=
  {| round := Num;
     exp64 := fun r => Num (exp r);
     dot64 := fun _ _ => dot_rows |}.

(** Arithmetic in which [np.exp] underflows: 0.0 below -746, where the
    exponential is less than half the smallest positive float64. *)
Definition underflowing : arith :=
  {| round := Num;
     exp64 := fun r => if Rlt_dec r (-746) then Num 0 else Num (exp r);
     dot64 := fun _ _ => dot_rows |}.

End Rounded.

(* ================================================================= *)
(** * Properties of the product-manifold filter *)

Module FilterProps.

Import Filter.

(** ** Selection commutes with entrywise maps *)

Lemma item_map {A B} (h : A -> B) (a : list A) (i : Z) :
  item (map h a) i = (x <- item a i ;; Ok (h x))%res.
Proof.
  unfold item. rewrite length_map.
  destruct (np_index (length a) i) as [n|e]; simpl; [|reflexivity].
  rewrite nth_error_map. destruct (nth_error a n); reflexivity.
Qed.

Lemma take_map {A B} (h : A -> B) (a : list A) (idx : list Z) :
  take (map h a) idx = (d <- take a idx ;; Ok (map h d))%res.
Proof.
  unfold take. induction idx as [|i idx IH]; simpl; [reflexivity|].
  rewrite item_map. destruct (item a i) as [x|e]; simpl; [|reflexivity].
  rewrite IH. destruct (mapR (item a) idx); reflexivity.
Qed.

Lemma take_cols_gaussian (G : matrix) (idx : list Z) (sigma : float64) :
  take_cols (gaussian_kernel G sigma) idx =
  mapR (fun row => profile row idx sigma) G.
Proof.
  unfold take_cols, gaussian_kernel, profile.
  induction G as [|row G IH]; simpl; [reflexivity|].
  rewrite take_map, IH. reflexivity.
Qed.

(** The kernel the code builds is the kernel of one round as the
    specification words it. *)
Lemma kernel_is_round_kernel gx gy i j sigma :
  product_manifold_kernel gx gy i j sigma = round_kernel gx gy i j sigma.
Proof.
  unfold product_manifold_kernel, round_kernel.
  rewrite !take_cols_gaussian. reflexivity.
Qed.

Section Loop.

Variable St : Type.
Variable assignment_functor : strategy St.
Variables gx gy : matrix.

Lemma loop_is_rounds (n : nat) :
  forall i j sigma gamma s,
    (st <- iterM n (loop_body assignment_functor gx gy gamma) (i, j, sigma) ;;
     ret (fst (fst st), snd (fst st)))%monad s
    = rounds assignment_functor gx gy n i j sigma gamma s.
Proof.
  induction n as [|n IH]; intros i j sigma gamma s.
  - reflexivity.
  - simpl. unfold bind at 1 2. unfold loop_body at 1.
    rewrite kernel_is_round_kernel.
    unfold bind, lift.
    destruct (round_kernel gx gy i j sigma) as [K|e]; [|reflexivity].
    destruct (assignment_functor K s) as [[[i' j']|e] s']; [|reflexivity].
    simpl. rewrite <- IH. reflexivity.
Qed.

(** C2. For every assignment strategy, geodesic matrices, seed
    correspondence, sigma, gamma and iteration count [n], the refinement
    from a correspondence is [n] rounds, each of which builds the kernel
    whose (p, q) entry is the dot product of the two Gaussian-weighted
    profiles rescaled by the maximum entry, replaces the correspondence by
    the strategy's answer on that kernel and multiplies sigma by gamma; it
    returns the correspondence after the last round. *)
Theorem refine_performs_n_rounds (n : nat) i j sigma gamma s :
  product_manifold_filter_correspondence
    assignment_functor gx gy i j sigma gamma (Z.of_nat n) s
  = rounds assignment_functor gx gy n i j sigma gamma s.
Proof.
  unfold product_manifold_filter_correspondence, for_range.
  rewrite Nat2Z.id. apply loop_is_rounds.
Qed.

(** C3. With [iterations = 0] the refinement from a correspondence
    returns its input correspondence unchanged, and the refinement from
    a matrix returns what one application of the strategy to the matrix
    returns. *)
Theorem zero_iterations i j P sigma gamma s :
  product_manifold_filter_correspondence
    assignment_functor gx gy i j sigma gamma 0 s = (Ok (i, j), s)
  /\ product_manifold_filter_assignment
       assignment_functor gx gy P sigma gamma 0 s = assignment_functor P s.
Proof.
  split; [reflexivity|].
  unfold product_manifold_filter_assignment, bind.
  destruct (assignment_functor P s) as [[[i' j']|e] s']; reflexivity.
Qed.

End Loop.

(** A run of [n] iterations that returns has called the strategy [n]
    times. *)
Lemma strategy_called_n_times St (f : strategy St) gx gy (n : nat) :
  forall i j sigma gamma s c r s' c',
    product_manifold_filter_correspondence
      (counted f) gx gy i j sigma gamma (Z.of_nat n) (s, c) = (Ok r, (s', c')) ->
    c' = (c + n)%nat.
Proof.
  unfold product_manifold_filter_correspondence, for_range.
  rewrite Nat2Z.id. intros i j sigma gamma s c r s' c'.
  rewrite loop_is_rounds. revert i j sigma gamma s c.
  induction n as [|n IH]; intros i j sigma gamma s c; simpl.
  - unfold ret. intros H. inversion H. lia.
  - unfold bind, lift.
    destruct (round_kernel gx gy i j sigma) as [K|e]; [|discriminate].
    unfold counted at 1. simpl.
    destruct (f K s) as [[ij|e] s1]; [|discriminate].
    intros H. apply IH in H. lia.
Qed.

(** Two rounds on a pair of one-vertex shapes, with the strategy that
    always answers the correspondence 0 -> 0: two calls of the strategy. *)
Example two_rounds :
  product_manifold_filter_correspondence
    (counted (fun _ (s : unit) => (Ok ([0%Z], [0%Z]), s)))
    [[Num 0]] [[Num 0]] [0%Z] [0%Z] (Num 1) (Num 1) 2 (tt, O)
  = (Ok ([0%Z], [0%Z]), (tt, 2%nat)).
Proof. reflexivity. Qed.

(** An index outside the matrix is the exception of the whole run. *)
Example index_out_of_range :
  product_manifold_filter_correspondence
    (fun _ (s : unit) => (Ok ([0%Z], [0%Z]), s))
    [[Num 0]] [[Num 0]] [1%Z] [0%Z] (Num 1) (Num 1) 1 tt
  = (Raise ArrayError, tt).
Proof. reflexivity. Qed.

(** ** When the kernel is returned *)

Local Open Scope R_scope.

Lemma is_zero_true r : is_zero r = true <-> r = 0.
Proof. unfold is_zero. destruct (Req_dec_T r 0); split; congruence. Qed.

Lemma is_zero_false r : r <> 0 -> is_zero r = false.
Proof. unfold is_zero. destruct (Req_dec_T r 0); congruence. Qed.

(** *** What a successful selection returns *)

Lemma mapR_ok {A B} (h : A -> result B) (l : list A) (l' : list B) :
  mapR h l = Ok l' -> Forall2 (fun a b => h a = Ok b) l l'.
Proof.
  revert l'. induction l as [|a l IH]; simpl; intros l' H.
  - injection H as <-. constructor.
  - destruct (h a) as [b|e] eqn:Hb; simpl in H; [|discriminate].
    destruct (mapR h l) as [bs|e] eqn:Hbs; simpl in H; [|discriminate].
    injection H as <-. constructor; auto.
Qed.

Lemma item_In {A} (a : list A) (i : Z) (x : A) : item a i = Ok x -> In x a.
Proof.
  unfold item. destruct (np_index (length a) i) as [n|e]; simpl; [|discriminate].
  destruct (nth_error a n) eqn:Hn; [|discriminate].
  intros H. injection H as <-. eapply nth_error_In; eauto.
Qed.

Lemma take_ok {A} (P : A -> Prop) (a : list A) (idx : list Z) (d : list A) :
  Forall P a -> take a idx = Ok d -> Forall P d /\ length d = length idx.
Proof.
  intros Ha H. apply mapR_ok in H.
  induction H as [|i x idx d Hi _ IH]; [split; [constructor|reflexivity]|].
  destruct IH as [IH1 IH2]. split; [|simpl; congruence].
  constructor; [|assumption].
  rewrite Forall_forall in Ha. apply Ha. eapply item_In; eauto.
Qed.

Lemma take_cols_ok {A} (P : A -> Prop) (a : list (list A)) (idx : list Z)
    (d : list (list A)) :
  Forall (Forall P) a -> take_cols a idx = Ok d ->
  Forall (fun row => Forall P row /\ length row = length idx) d
  /\ length d = length a.
Proof.
  intros Ha H. apply mapR_ok in H.
  induction H as [|row x a d Hrow _ IH]; [split; [constructor|reflexivity]|].
  inversion Ha as [|? ? Hr Ha']; subst.
  destruct (IH Ha') as [IH1 IH2]. split; [|simpl; congruence].
  constructor; [|assumption]. eapply take_ok; eauto.
Qed.

(** *** Maxima of finite values *)

Lemma max_finite (xs : list float64) :
  forall x, Forall finite (x :: xs) ->
  exists r, fold_left fmax xs x = Num r
            /\ In (Num r) (x :: xs)
            /\ forall y, In (Num y) (x :: xs) -> y <= r.
Proof.
  induction xs as [|z xs IH]; intros x Hx.
  - inversion Hx as [|? ? Hfx _]; subst.
    destruct x as [a| | |]; simpl in Hfx; try tauto.
    exists a. simpl. repeat split; [auto|].
    intros y [Hy|[]]. injection Hy as ->. lra.
  - inversion Hx as [|? ? Hfx Hrest]; subst.
    inversion Hrest as [|? ? Hfz Hxs]; subst.
    destruct x as [a| | |], z as [b| | |]; simpl in Hfx, Hfz; try tauto.
    destruct (IH (Num (Rmax a b))) as (r & Hr & Hin & Hub).
    { constructor; [exact I|assumption]. }
    exists r. simpl. split; [exact Hr|]. split.
    + destruct Hin as [Hin|Hin]; [|right; right; assumption].
      injection Hin as <-.
      unfold Rmax. destruct (Rle_dec a b); [right; left|left]; reflexivity.
    + assert (Hm : Rmax a b <= r) by (apply Hub; left; reflexivity).
      pose proof (Rmax_l a b). pose proof (Rmax_r a b).
      intros y [Hy|[Hy|Hy]].
      * injection Hy as ->. lra.
      * injection Hy as ->. lra.
      * apply Hub. right. assumption.
Qed.

(** *** When the kernel is returned *)

Lemma item_defined {A} (a : list A) (i : Z) :
  in_bounds (length a) i -> exists x, item a i = Ok x.
Proof.
  unfold in_bounds, item, np_index. intros Hi.
  destruct ((0 <=? i) && (i <? Z.of_nat (length a)))%Z eqn:H1; simpl.
  - apply andb_true_iff in H1. destruct H1 as [H0 H1].
    apply Z.leb_le in H0. apply Z.ltb_lt in H1.
    destruct (nth_error a (Z.to_nat i)) eqn:Hn; [eauto|].
    apply nth_error_None in Hn. lia.
  - destruct ((- Z.of_nat (length a) <=? i) && (i <? 0))%Z eqn:H2; simpl.
    + apply andb_true_iff in H2. destruct H2 as [H2 H3].
      apply Z.leb_le in H2. apply Z.ltb_lt in H3.
      destruct (nth_error a (Z.to_nat (i + Z.of_nat (length a)))) eqn:Hn; [eauto|].
      apply nth_error_None in Hn. lia.
    + apply andb_false_iff in H1. apply andb_false_iff in H2.
      rewrite !Z.leb_gt, !Z.ltb_ge in *. lia.
Qed.

Lemma take_defined {A} (a : list A) (idx : list Z) :
  Forall (in_bounds (length a)) idx -> exists d, take a idx = Ok d.
Proof.
  unfold take. induction 1 as [|i idx Hi _ [d IH]]; simpl; [eauto|].
  destruct (@item_defined _ a i Hi) as [x ->]. rewrite IH. simpl. eauto.
Qed.

Lemma take_cols_defined {A} (a : list (list A)) (idx : list Z) :
  Forall (fun row => Forall (in_bounds (length row)) idx) a ->
  exists d, take_cols a idx = Ok d /\ length d = length a.
Proof.
  unfold take_cols. induction 1 as [|row a Hrow _ (d & IH & Hlen)]; simpl; [eauto|].
  destruct (@take_defined _ row idx Hrow) as [r ->]. rewrite IH. simpl.
  eexists. split; [reflexivity|]. simpl. congruence.
Qed.

(** The kernel is returned whenever both matrices have a row, the two
    index sequences have one length and every index is within every row. *)
Lemma kernel_defined gx gy ix iy sigma :
  gx <> [] -> gy <> [] ->
  length ix = length iy ->
  Forall (fun row => Forall (in_bounds (length row)) ix) gx ->
  Forall (fun row => Forall (in_bounds (length row)) iy) gy ->
  exists K, product_manifold_kernel gx gy ix iy sigma = Ok K.
Proof.
  intros Hgx Hgy Hlen Hx Hy. unfold product_manifold_kernel.
  destruct (@take_cols_defined _ (gaussian_kernel gx sigma) ix) as (A & -> & HA).
  { unfold gaussian_kernel. apply Forall_map.
    eapply Forall_impl; [|exact Hx]. intros row. rewrite length_map. auto. }
  destruct (@take_cols_defined _ (gaussian_kernel gy sigma) iy) as (B & -> & HB).
  { unfold gaussian_kernel. apply Forall_map.
    eapply Forall_impl; [|exact Hy]. intros row. rewrite length_map. auto. }
  simpl. unfold dot_T. rewrite (proj2 (Nat.eqb_eq _ _) Hlen). simpl.
  unfold gaussian_kernel in HA, HB. rewrite length_map in HA, HB.
  destruct A as [|ra A]; [destruct gx; [congruence|discriminate]|].
  destruct B as [|rb B]; [destruct gy; [congruence|discriminate]|].
  unfold amax. simpl. eauto.
Qed.

(** *** Inputs on which an entry is nan or zero, without rounding *)

(** Without landmarks (two empty index sequences) every inner product is
    the empty sum 0.0, the maximum is 0.0 and rescaling divides 0.0 by
    0.0. *)
Lemma kernel_without_landmarks :
  0 < 1
  /\ product_manifold_kernel [[Num 0]] [[Num 0]] [] [] (Num 1) = Ok [[NaN]]
  /\ ~ (Forall (Forall unit_interval) [[NaN]] /\ amax [[NaN]] = Ok (Num 1)).
Proof.
  split; [lra|]. split.
  - unfold product_manifold_kernel. simpl.
    unfold inf_of_sign. rewrite (proj2 (is_zero_true 0) eq_refl). reflexivity.
  - intros [H _]. inversion H as [|? ? Hrow _]; subst.
    inversion Hrow as [|? ? Hnan _]; subst. exact Hnan.
Qed.

(** An infinite geodesic distance (two components of X) gives a kernel
    entry that is exactly zero. *)
Lemma kernel_with_infinite_distance :
  exists K,
    product_manifold_kernel
      [[Num 0; PInf]; [PInf; Num 0]] [[Num 0]] [0%Z] [0%Z] (Num 1) = Ok K
    /\ nth 1 K [] = [Num 0].
Proof.
  unfold product_manifold_kernel, gaussian_kernel, gaussian. simpl.
  unfold inf_of_sign. rewrite (is_zero_false (r := 1)) by lra.
  rewrite (is_zero_false (r := -0.5)) by lra.
  unfold is_pos. destruct (Rlt_dec 0 1) as [_|H]; [|exfalso; lra].
  destruct (Rlt_dec 0 (-0.5)) as [H|_]; [exfalso; lra|]. simpl.
  set (e := exp (-0.5 * (0 / 1 * (0 / 1)))).
  assert (He : 0 < e) by apply exp_pos.
  assert (Hmax : Rmax (0 + e * e) (0 + 0 * e) = e * e).
  { rewrite Rmax_left; nra. }
  rewrite Hmax. rewrite (is_zero_false (r := e * e)) by nra.
  eexists. split; [reflexivity|]. simpl. f_equal. f_equal. field. lra.
Qed.

End FilterProps.

(* ================================================================= *)
(** * Properties of the Mesh class *)

Module MeshProps.

Import MeshClass MeshSpec.

(** Unfold one level of monadic plumbing. *)
Ltac run := unfold bind, get, ret, lift, modify; simpl.

(** ** Reads of a populated cache compute nothing *)

Section Reads.

Variable util : Util.

Lemma g_cached m :
  Nat.eqb (size (__g m)) 0 = false -> g util m = (Ok (__g m), m).
Proof. intros H. unfold g. run. rewrite H. reflexivity. Qed.

Lemma l_cached m :
  Nat.eqb (sp_size (__l m)) 0 = false -> l util m = (Ok (__l m), m).
Proof. intros H. unfold l. run. rewrite H. reflexivity. Qed.

Lemma mass_cached m :
  Nat.eqb (sp_size (__mass m)) 0 = false -> mass util m = (Ok (__mass m), m).
Proof. intros H. unfold mass. run. rewrite H. reflexivity. Qed.

Lemma normals_cached m :
  Nat.eqb (size (__normals m)) 0 = false ->
  normals util m = (Ok (__normals m), m).
Proof. intros H. unfold normals. run. rewrite H. reflexivity. Qed.

Lemma eigen_cached m :
  existsb (fun e => Nat.eqb (size e) 0) (__eigen m) = false ->
  eigen util m = (Ok (__eigen m), m).
Proof. intros H. unfold eigen. run. rewrite H. reflexivity. Qed.

(** ** Reads of an empty cache *)

Lemma g_computed m :
  Nat.eqb (size (__g m)) 0 = true ->
  g util m = match geodesic_of util m with
             | Ok G => (Ok G, with_g G m)
             | Raise e => (Raise e, m)
             end.
Proof.
  intros H. unfold g, geodesic_of. run. rewrite H.
  destruct (Nat.leb (N m) 500).
  - destruct (geodesicMatrix util (__v m) (__f m)); reflexivity.
  - destruct (vedo_decimate util (__v m) (__f m) (Some 500%Z) None)
      as [[[pv pf] pidx]|e]; simpl; [|reflexivity].
    destruct (geodesicMatrix util pv pf) as [pg|e]; simpl; [|reflexivity].
    destruct (extrapolate_geodesic_matrix util pv (__v m) pg pf); reflexivity.
Qed.

(** The Laplacian read changes at most the Laplacian slot. *)
Lemma l_effect m :
  exists x, snd (l util m) = with_l x m.
Proof.
  unfold l. run. destruct (Nat.eqb (sp_size (__l m)) 0).
  - destruct (cotmatrix util (__v m) (__f m)) as [x|e]; simpl.
    + exists x. reflexivity.
    + exists (__l m). destruct m; reflexivity.
  - exists (__l m). destruct m; reflexivity.
Qed.

Lemma mass_effect m :
  exists x, snd (mass util m) = with_mass x m.
Proof.
  unfold mass. run. destruct (Nat.eqb (sp_size (__mass m)) 0).
  - destruct (massmatrix util (__v m) (__f m)) as [x|e]; simpl.
    + exists x. reflexivity.
    + exists (__mass m). destruct m; reflexivity.
  - exists (__mass m). destruct m; reflexivity.
Qed.

(** What a read of the eigenbasis does to the mesh: the Laplacian and
    mass slots may be filled; the eigenbasis slot changes only when the
    read returns. *)
Lemma eigen_effect m :
  exists lx mx,
    (forall e m', eigen util m = (Raise e, m') ->
                  m' = with_mass mx (with_l lx m))
    /\ (forall ev m', eigen util m = (Ok ev, m') ->
                      m' = with_eigen ev (with_mass mx (with_l lx m))).
Proof.
  unfold eigen. run.
  destruct (existsb (fun e => Nat.eqb (size e) 0) (__eigen m)).
  - destruct (l_effect m) as [lx Hl].
    destruct (l util m) as [[lap|e] m1] eqn:El; simpl in Hl; subst m1.
    + destruct (mass_effect (with_l lx m)) as [mx Hm].
      destruct (mass util (with_l lx m)) as [[ms|e] m2] eqn:Em;
        simpl in Hm; subst m2.
      * exists lx, mx.
        destruct (laplace_eigen_decomposition util lap ms _) as [x|e];
          simpl; split; intros ? m' H; inversion H; subst; reflexivity.
      * exists lx, mx. split; intros ? m' H; inversion H; subst; reflexivity.
    + exists lx, (__mass m).
      split; intros ? m' H; inversion H; subst m'; destruct m; reflexivity.
  - exists (__l m), (__mass m).
    split; intros ? m' H; inversion H; subst m'; destruct m; reflexivity.
Qed.

End Reads.

(** ** The Gaussian-curvature property *)

(** C10. On a freshly constructed Mesh a read of [gaussian] raises: the
    attribute the getter consults is not bound by the constructor, so the
    getter fails before its lazy-compute branch. *)
Theorem gaussian_of_fresh_mesh_raises util nv nf ng nk ntype :
  gaussian util (__init__ nv nf ng nk ntype)
  = (Raise AttributeError, __init__ nv nf ng nk ntype).
Proof. reflexivity. Qed.

(** ** Assigning vertices or faces *)

Lemma populated_inv m :
  populated m = true ->
  Nat.eqb (sp_size (__l m)) 0 = false
  /\ Nat.eqb (sp_size (__mass m)) 0 = false
  /\ existsb (fun e => Nat.eqb (size e) 0) (__eigen m) = false
  /\ Nat.eqb (size (__g m)) 0 = false
  /\ Nat.eqb (size (__normals m)) 0 = false.
Proof.
  unfold populated. rewrite !andb_true_iff, !negb_true_iff. tauto.
Qed.




(** ** Assigning the rank *)

Lemma slice_to_firstn {A} (k : Z) (xs : list A) :
  (0 <= k)%Z -> slice_to k xs = firstn (Z.to_nat k) xs.
Proof.
  intros Hk. unfold slice_to.
  destruct (Z.leb_spec 0 k); [reflexivity|lia].
Qed.

(** In a sequence sorted by [le], each of the first [n] entries is below
    each of the others. *)
Lemma firstn_lowest {A} (le : A -> A -> Prop) (xs : list A) :
  StronglySorted le xs ->
  forall n x y, In x (firstn n xs) -> In y (skipn n xs) -> le x y.
Proof.
  induction 1 as [|a xs Hs IH Ha]; intros n x y Hx Hy.
  - destruct n; simpl in Hx; contradiction.
  - destruct n as [|n]; simpl in Hx, Hy; [contradiction|].
    destruct Hx as [<-|Hx].
    + rewrite Forall_forall in Ha. apply Ha.
      rewrite <- (firstn_skipn n xs). apply in_or_app. right. exact Hy.
    + eapply IH; eauto.
Qed.

(** C6. On a Mesh whose cached eigenbasis was computed at rank [r] (the
    current rank, with [r] eigenvalues and [r] columns of eigenvectors),
    setting the rank to [k] with [0 <= k <= r] keeps the first [k] stored
    eigenvalues and the first [k] columns of the eigenvectors, which are the
    [k] lowest eigenpairs of a basis stored in ascending order; setting it to
    [k > r] empties the cached eigenbasis.  The setter calls no collaborator
    and leaves the other caches alone. *)
Theorem rank_setter m (k : Z) (evals : list float64) (evecs : list (list float64)) :
  __eigen m = [Arr1 evals; Arr2 evecs] ->
  length evals = Z.to_nat (__k m) ->
  Forall (fun row => length row = Z.to_nat (__k m)) evecs ->
  let m' := snd (set_k k m) in
  fst (set_k k m) = Ok tt
  /\ __k m' = k
  /\ (__l m', __mass m', __g m', __normals m')
     = (__l m, __mass m, __g m, __normals m)
  /\ ((0 <= k <= __k m)%Z ->
      __eigen m' = [Arr1 (firstn (Z.to_nat k) evals);
                    Arr2 (map (firstn (Z.to_nat k)) evecs)]
      /\ length (firstn (Z.to_nat k) evals) = Z.to_nat k
      /\ Forall (fun row => length row = Z.to_nat k)
                (map (firstn (Z.to_nat k)) evecs)
      /\ forall le, StronglySorted le evals ->
           forall x y, In x (firstn (Z.to_nat k) evals) ->
                       In y (skipn (Z.to_nat k) evals) -> le x y)
  /\ ((__k m < k)%Z -> __eigen m' = [empty_array; empty_array]).
Proof.
  intros He Hn Hrows m'. subst m'. unfold set_k. run.
  repeat split.
  - destruct H as [H0 Hk]. rewrite (proj2 (Z.leb_le _ _) Hk), He. simpl.
    rewrite slice_to_firstn by assumption.
    do 2 f_equal. f_equal. apply map_ext. intros row.
    apply slice_to_firstn. assumption.
  - apply firstn_length_le. lia.
  - apply Forall_map. eapply Forall_impl; [|exact Hrows].
    intros row Hrow. cbv beta in Hrow. apply firstn_length_le. lia.
  - intros le Hs x y. apply firstn_lowest. exact Hs.
  - intros Hk. destruct (Z.leb_spec k (__k m)); [lia|reflexivity].
Qed.

(** The triangle cached at rank 2: rank 1 keeps the first eigenpair, rank 5
    empties the eigenbasis. *)
Lemma rank_setter_witness :
  __eigen (snd (set_k 1 cached_triangle))
  = [Arr1 [Num 0]; Arr2 [[Num 1]; [Num 1]; [Num 1]]]
  /\ __eigen (snd (set_k 5 cached_triangle)) = [empty_array; empty_array].
Proof.
  split.
  - apply (@rank_setter cached_triangle 1 [Num 0; Num 3]
             [[Num 1; Num 1]; [Num 1; Num 0]; [Num 1; Num (-1)]]
             eq_refl eq_refl).
    + repeat constructor.
    + simpl. lia.
  - apply (@rank_setter cached_triangle 5 [Num 0; Num 3]
             [[Num 1; Num 1]; [Num 1; Num 0]; [Num 1; Num (-1)]]
             eq_refl eq_refl).
    + repeat constructor.
    + simpl. lia.
Defined.

(** ** Reading the geodesic matrix *)

(** C7. On a Mesh whose geodesic cache is empty, a read of the geodesic
    matrix computes the exact matrix when there are at most 500 vertices
    and otherwise decimates to a 500-vertex proxy, computes the exact
    matrix of the proxy and extrapolates it to all vertices; a failure of
    a step is the failure of the read.  The matrix is stored, and once a
    matrix with entries is stored every later read returns it, whatever the
    collaborators would compute. *)
Theorem geodesic_read util m :
  Nat.eqb (size (__g m)) 0 = true ->
  g util m = match geodesic_of util m with
             | Ok G => (Ok G, with_g G m)
             | Raise e => (Raise e, m)
             end
  /\ (Nat.leb (N m) 500 = true ->
      geodesic_of util m = geodesicMatrix util (__v m) (__f m))
  /\ (Nat.leb (N m) 500 = false ->
      forall pv pf pidx pg,
        vedo_decimate util (__v m) (__f m) (Some 500%Z) None = Ok (pv, pf, pidx) ->
        geodesicMatrix util pv pf = Ok pg ->
        geodesic_of util m = extrapolate_geodesic_matrix util pv (__v m) pg pf)
  /\ (forall G, geodesic_of util m = Ok G -> size G <> O ->
      forall util', g util' (with_g G m) = (Ok G, with_g G m)).
Proof.
  intros Hempty. split; [apply g_computed; exact Hempty|].
  unfold geodesic_of. repeat split.
  - intros ->. reflexivity.
  - intros -> pv pf pidx pg -> Hpg. simpl. rewrite Hpg. reflexivity.
  - intros G _ HG util'. apply (g_cached util' (with_g G m)).
    simpl. apply Nat.eqb_neq. exact HG.
Qed.

(** The fresh triangle: the first read computes the 3 x 3 matrix and
    stores it; the second read returns it with no collaborator available.
    On 501 vertices the read goes through the proxy. *)
Lemma geodesic_read_witness :
  g simple fresh_triangle = (Ok (zeros 3), with_g (zeros 3) fresh_triangle)
  /\ g unavailable (with_g (zeros 3) fresh_triangle)
     = (Ok (zeros 3), with_g (zeros 3) fresh_triangle)
  /\ g simple large_cloud = (Ok (zeros 501), with_g (zeros 501) large_cloud).
Proof.
  destruct (@geodesic_read simple fresh_triangle eq_refl) as (H1 & _ & _ & H4).
  destruct (@geodesic_read simple large_cloud eq_refl) as (L1 & _ & _ & _).
  split; [exact H1|]. split; [|exact L1].
  apply H4; [reflexivity|discriminate].
Defined.

(** ** Failed reads *)

Lemma g_raises util m e m' : g util m = (Raise e, m') -> m' = m.
Proof.
  destruct (Nat.eqb (size (__g m)) 0) eqn:Hs.
  - rewrite g_computed by assumption.
    destruct (geodesic_of util m); intros H; inversion H; reflexivity.
  - rewrite g_cached by assumption. discriminate.
Qed.

Lemma l_raises util m e m' : l util m = (Raise e, m') -> m' = m.
Proof.
  unfold l. run. destruct (Nat.eqb (sp_size (__l m)) 0).
  - destruct (cotmatrix util (__v m) (__f m)); simpl;
      intros H; inversion H; reflexivity.
  - discriminate.
Qed.

Lemma mass_raises util m e m' : mass util m = (Raise e, m') -> m' = m.
Proof.
  unfold mass. run. destruct (Nat.eqb (sp_size (__mass m)) 0).
  - destruct (massmatrix util (__v m) (__f m)); simpl;
      intros H; inversion H; reflexivity.
  - discriminate.
Qed.

Lemma normals_raises util m e m' : normals util m = (Raise e, m') -> m' = m.
Proof.
  unfold normals. run. destruct (Nat.eqb (size (__normals m)) 0).
  - destruct (per_vertex_normals util (__v m) (__f m)); simpl;
      intros H; inversion H; reflexivity.
  - discriminate.
Qed.

Lemma eigen_raises util m e m' :
  eigen util m = (Raise e, m') -> __eigen m' = __eigen m.
Proof.
  intros H. destruct (eigen_effect util m) as (lx & mx & Hr & _).
  rewrite (Hr _ _ H). reflexivity.
Qed.

Lemma read_raises_keeps util (d : derived) m e m' :
  read util d m = (Raise e, m') ->
  cache d m' = cache d m.
Proof.
  destruct d; unfold read, bind; simpl.
  - destruct (l util m) as [[x|e0] m0] eqn:E; intros H; inversion H; subst.
    apply l_raises in E. subst. reflexivity.
  - destruct (mass util m) as [[x|e0] m0] eqn:E; intros H; inversion H; subst.
    apply mass_raises in E. subst. reflexivity.
  - destruct (eigen util m) as [[x|e0] m0] eqn:E; intros H; inversion H; subst.
    apply eigen_raises in E. rewrite E. reflexivity.
  - destruct (g util m) as [[x|e0] m0] eqn:E; intros H; inversion H; subst.
    apply g_raises in E. subst. reflexivity.
  - destruct (normals util m) as [[x|e0] m0] eqn:E; intros H; inversion H; subst.
    apply normals_raises in E. subst. reflexivity.
Qed.

(** The exception of a failed step is the exception of the read. *)
Lemma failure_propagates util m e :
  (Nat.eqb (size (__g m)) 0 = true ->
   geodesic_of util m = Raise e -> g util m = (Raise e, m))
  /\ (existsb (fun a => Nat.eqb (size a) 0) (__eigen m) = true ->
      forall lap ms m1 m2,
        l util m = (Ok lap, m1) -> mass util m1 = (Ok ms, m2) ->
        laplace_eigen_decomposition util lap ms (__k m2) = Raise e ->
        eigen util m = (Raise e, m2)).
Proof.
  split.
  - intros Hs Hg. rewrite g_computed, Hg by assumption. reflexivity.
  - intros Hs lap ms m1 m2 Hl Hm He. unfold eigen. run. rewrite Hs.
    unfold bind. rewrite Hl, Hm. unfold k. run. rewrite He. reflexivity.
Qed.



(** ** Scalar fields under sub-selection *)

Lemma dict_get_set_same {A} (d : dict A) key (a : A) :
  dict_get (dict_set d key a) key = Some a.
Proof.
  induction d as [|[k0 a0] d IH]; simpl.
  - rewrite String.eqb_refl. reflexivity.
  - destruct (String.eqb k0 key) eqn:E; simpl; rewrite E; auto.
Qed.

Lemma dict_get_set_other {A} (d : dict A) key key' (a : A) :
  key <> key' -> dict_get (dict_set d key a) key' = dict_get d key'.
Proof.
  intros Hne. induction d as [|[k0 a0] d IH]; simpl.
  - rewrite (proj2 (String.eqb_neq _ _) Hne). reflexivity.
  - destruct (String.eqb k0 key) eqn:E; simpl.
    + apply String.eqb_eq in E. subst k0.
      rewrite (proj2 (String.eqb_neq _ _) Hne). reflexivity.
    + destruct (String.eqb k0 key'); auto.
Qed.

Lemma dict_get_keys {A} (d : dict A) key :
  In key (keys d) <-> dict_get d key <> None.
Proof.
  induction d as [|[k0 a0] d IH]; simpl.
  - split; [contradiction|congruence].
  - destruct (String.eqb k0 key) eqn:E.
    + apply String.eqb_eq in E. split; [discriminate|auto].
    + apply String.eqb_neq in E. rewrite <- IH. split; [|auto].
      intros [H|H]; [contradiction|exact H].
Qed.

(** The loop over the names: a visited name holds the restricted field, an
    unvisited one is as in the dict the loop started from. *)
Lemma carry_scalars_spec src idx :
  forall fns acc sc,
    carry_scalars src fns idx acc = Ok sc ->
    forall fn,
      (In fn fns ->
       exists a x, dict_get src fn = Some a /\ index_rows a idx = Ok x
                   /\ dict_get sc fn = Some x)
      /\ (~ In fn fns -> dict_get sc fn = dict_get acc fn).
Proof.
  induction fns as [|fn0 fns IH]; intros acc sc H fn; simpl in H.
  - injection H as <-. split; [contradiction|reflexivity].
  - destruct (dict_get src fn0) as [a0|] eqn:Ha; simpl in H; [|discriminate].
    destruct (index_rows a0 idx) as [x0|] eqn:Hx; simpl in H; [|discriminate].
    destruct (IH _ _ H fn) as [IHin IHout].
    destruct (in_dec string_dec fn fns) as [Hin|Hnin].
    + split; [intros _; auto|]. simpl. tauto.
    + split.
      * intros [->|Hin]; [|contradiction].
        exists a0, x0. repeat split; try assumption.
        rewrite (IHout Hnin). apply dict_get_set_same.
      * simpl. intros Hn. rewrite (IHout Hnin).
        apply dict_get_set_other. tauto.
Qed.

Lemma carry_scalars_carried src idx sc :
  carry_scalars src (keys src) idx [] = Ok sc -> carried src idx sc.
Proof.
  intros H fn. destruct (carry_scalars_spec _ _ _ _ H fn) as [Hin Hout].
  destruct (dict_get src fn) as [a|] eqn:Ha.
  - destruct Hin as (a' & x & Ha' & Hx & Hsc).
    { apply dict_get_keys. congruence. }
    exists x. split; congruence.
  - rewrite Hout; [reflexivity|].
    intros Hin'. apply dict_get_keys in Hin'. congruence.
Qed.

(** ** Indexing, decimation and upsampling, step by step *)

Section Runs.

Variable util : Util.

(** The last steps of [__getitem__] and [decimate]: read the rank and
    the type, construct the mesh, carry the scalar fields. *)
Lemma eigen_keeps m ev m1 :
  eigen util m = (Ok ev, m1) ->
  __k m1 = __k m /\ __type m1 = __type m /\ __scalars m1 = __scalars m
  /\ __v m1 = __v m /\ __f m1 = __f m /\ __g m1 = __g m.
Proof.
  intros H. destruct (eigen_effect util m) as (lx & mx & _ & Ho).
  rewrite (Ho _ _ H). repeat split.
Qed.

Lemma getitem_eq idx m :
  __getitem__ util idx m =
  match selected_geometry util m idx with
  | Raise e => (Raise e, m)
  | Ok vf =>
      match selected_geodesics m idx with
      | Raise e => (Raise e, m)
      | Ok sub =>
          match eigen util m with
          | (Raise e, m1) => (Raise e, m1)
          | (Ok ev, m1) =>
              match unpack2 ev with
              | Raise e => (Raise e, m1)
              | Ok _ =>
                  match carry_scalars (__scalars m) (keys (__scalars m)) idx [] with
                  | Raise e => (Raise e, m1)
                  | Ok sc =>
                      (Ok (with_scalars sc
                             (__init__ (fst vf) (snd vf) sub (__k m) (__type m))),
                       m1)
                  end
              end
          end
      end
  end.
Proof.
  assert (Htail : forall vf sub,
    (ev <- eigen util ;;
     lift (unpack2 ev) ;;;
     rank <- k ;;
     ty <- type ;;
     let res := __init__ (fst vf) (snd vf) sub rank ty in
     src <- scalars ;;
     sc <- lift (carry_scalars src (keys src) idx (__scalars res)) ;;
     ret (with_scalars sc res))%monad m
    = match eigen util m with
      | (Raise e, m1) => (Raise e, m1)
      | (Ok ev, m1) =>
          match unpack2 ev with
          | Raise e => (Raise e, m1)
          | Ok _ =>
              match carry_scalars (__scalars m) (keys (__scalars m)) idx [] with
              | Raise e => (Raise e, m1)
              | Ok sc =>
                  (Ok (with_scalars sc
                         (__init__ (fst vf) (snd vf) sub (__k m) (__type m))),
                   m1)
              end
          end
      end).
  { intros vf sub. unfold bind at 1.
    destruct (eigen util m) as [[ev|e] m1] eqn:E; [|reflexivity].
    destruct (@eigen_keeps m ev m1 E) as (Hk & Ht & Hs & _).
    unfold k, type, scalars. run.
    destruct (unpack2 ev); [|reflexivity].
    rewrite Hk, Ht, Hs.
    destruct (carry_scalars _ _ _ _); reflexivity. }
  unfold __getitem__, selected_geometry, selected_geodesics.
  unfold bind at 1. unfold get at 1. unfold bind at 1.
  destruct (Nat.eqb (length idx) (N m)).
  - unfold lift at 1.
    destruct (reorder_mesh util (__v m) (__f m) idx) as [vf|e]; [|reflexivity].
    unfold bind at 1.
    destruct (Nat.eqb (size (__g m)) 0) eqn:Hs.
    + unfold ret at 1. apply Htail.
    + unfold bind at 1. rewrite (g_cached util m Hs). unfold lift at 1.
      destruct (submatrix (__g m) idx) as [sub|e]; [|reflexivity].
      apply Htail.
  - unfold bind at 1. unfold lift at 1.
    destruct (index_rows (__v m) idx) as [sel|e]; [|reflexivity].
    unfold ret at 1. simpl result_bind.
    unfold bind at 1.
    destruct (Nat.eqb (size (__g m)) 0) eqn:Hs.
    + unfold ret at 1. apply Htail.
    + unfold bind at 1. rewrite (g_cached util m Hs). unfold lift at 1.
      destruct (submatrix (__g m) idx) as [sub|e]; [|reflexivity].
      apply Htail.
Qed.

Lemma decimate_eq n frac m :
  decimate util n frac m =
  match vedo_decimate util (__v m) (__f m) n frac with
  | Raise e => (Raise e, m)
  | Ok (dv, df, idx) =>
      match selected_geodesics m idx with
      | Raise e => (Raise e, m)
      | Ok sub =>
          match carry_scalars (__scalars m) (keys (__scalars m)) idx [] with
          | Raise e => (Raise e, m)
          | Ok sc =>
              (Ok (with_scalars sc (__init__ dv df sub (__k m) (__type m)), idx), m)
          end
      end
  end.
Proof.
  assert (Htail : forall dv df sub idx,
    (rank <- k ;;
     ty <- type ;;
     let res := __init__ dv df sub rank ty in
     src <- scalars ;;
     sc <- lift (carry_scalars src (keys src) idx (__scalars res)) ;;
     ret (with_scalars sc res, idx))%monad m
    = match carry_scalars (__scalars m) (keys (__scalars m)) idx [] with
      | Raise e => (Raise e, m)
      | Ok sc =>
          (Ok (with_scalars sc (__init__ dv df sub (__k m) (__type m)), idx), m)
      end).
  { intros dv df sub idx. unfold k, type, scalars. run.
    destruct (carry_scalars _ _ _ _); reflexivity. }
  unfold decimate, selected_geodesics, copy.
  unfold bind at 1. unfold get at 1. unfold bind at 1. unfold lift at 1.
  destruct (vedo_decimate util (__v m) (__f m) n frac) as [[[dv df] idx]|e];
    [|reflexivity].
  unfold bind at 1.
  destruct (Nat.eqb (size (__g m)) 0) eqn:Hs.
  - unfold ret at 1. apply Htail.
  - unfold bind at 1. rewrite (g_cached util m Hs).
    unfold bind at 1. unfold lift at 1.
    destruct (submatrix (__g m) idx) as [sub|e]; [|reflexivity].
    unfold ret at 1. apply Htail.
Qed.

(** A read of the geodesic matrix changes at most the geodesic slot. *)
Lemma g_effect m :
  exists x, snd (g util m) = with_g x m.
Proof.
  destruct (Nat.eqb (size (__g m)) 0) eqn:Hs.
  - rewrite g_computed by assumption.
    destruct (geodesic_of util m) as [G|e]; simpl.
    + exists G. reflexivity.
    + exists (__g m). destruct m; reflexivity.
  - rewrite g_cached by assumption. exists (__g m). destruct m; reflexivity.
Qed.

Lemma upsample_inv fuel target m res idx m' :
  upsample util fuel target m = Some (Ok (res, idx), m') ->
  exists uv uf gm ug,
    subdivide_loop util fuel target (__v m) (__f m) None
    = Some (Ok (uv, uf, Some idx))
    /\ g util m = (Ok gm, m')
    /\ extrapolate_geodesic_matrix util (__v m) uv gm (__f m) = Ok ug
    /\ res = __init__ uv uf ug (__k m) (__type m).
Proof.
  unfold upsample, copy.
  destruct (subdivide_loop util fuel target (__v m) (__f m) None)
    as [[[[uv uf] oidx]|e]|]; [|discriminate|discriminate].
  unfold v, f, k, type. run. unfold bind.
  destruct (g_effect m) as [x Hx].
  destruct (g util m) as [[gm|e] m1] eqn:Eg; [|discriminate].
  simpl in Hx. subst m1. unfold lift. simpl.
  destruct (extrapolate_geodesic_matrix util (__v m) uv gm (__f m))
    as [ug|e] eqn:Ex; [|discriminate].
  destruct oidx as [i|]; [|discriminate].
  intros H. inversion H; subst. exists uv, uf, gm, ug. repeat split.
  exact Ex.
Qed.

End Runs.

(** ** Indexing *)

(** C9. Indexing a Mesh of N vertices with an index array whose length is
    not N (in particular, less than N) returns a Mesh of the selected
    vertices with an empty face array; indexing with an index array of
    length exactly N returns the Mesh whose vertices and faces are what
    the mesh reordering gives.  The result is returned whenever the
    sub-selection of the cached geodesic matrix, the read of the eigenbasis
    and the restriction of the scalar fields succeed. *)
Theorem getitem_faces util m idx sub ea eb m1 sc :
  selected_geodesics m idx = Ok sub ->
  eigen util m = (Ok [ea; eb], m1) ->
  carry_scalars (__scalars m) (keys (__scalars m)) idx [] = Ok sc ->
  (length idx <> N m ->
   forall sel, index_rows (__v m) idx = Ok sel ->
     exists res, __getitem__ util idx m = (Ok res, m1)
                 /\ __v res = sel /\ __f res = empty_array)
  /\ (length idx = N m ->
      forall rv rf, reorder_mesh util (__v m) (__f m) idx = Ok (rv, rf) ->
        exists res, __getitem__ util idx m = (Ok res, m1)
                    /\ __v res = rv /\ __f res = rf).
Proof.
  intros Hsub He Hsc. split.
  - intros Hlen sel Hsel. rewrite getitem_eq. unfold selected_geometry.
    rewrite (proj2 (Nat.eqb_neq _ _) Hlen), Hsel. simpl.
    rewrite Hsub, He. simpl. rewrite Hsc.
    eexists. repeat split.
  - intros Hlen rv rf Hre. rewrite getitem_eq. unfold selected_geometry.
    rewrite (proj2 (Nat.eqb_eq _ _) Hlen), Hre.
    rewrite Hsub, He. simpl. rewrite Hsc.
    eexists. repeat split.
Qed.

(** Two of the three vertices of the cached triangle give a point cloud;
    a permutation of the three gives the reordered mesh. *)
Lemma getitem_faces_witness :
  (exists res,
      __getitem__ unavailable [0; 2]%Z cached_triangle = (Ok res, cached_triangle)
      /\ __v res = Arr2 [[Num 0; Num 0; Num 0]; [Num 0; Num 1; Num 0]]
      /\ __f res = empty_array)
  /\ (exists res,
         __getitem__ simple [2; 0; 1]%Z cached_triangle = (Ok res, cached_triangle)
         /\ __v res = Arr2 [[Num 0; Num 1; Num 0]; [Num 0; Num 0; Num 0];
                            [Num 1; Num 0; Num 0]]
         /\ __f res = triangle_f).
Proof.
  split.
  - refine (proj1 (@getitem_faces unavailable cached_triangle [0; 2]%Z
                     _ _ _ cached_triangle _ eq_refl eq_refl eq_refl) _ _ eq_refl).
    vm_compute. discriminate.
  - exact (proj2 (@getitem_faces simple cached_triangle [2; 0; 1]%Z
                    _ _ _ cached_triangle _ eq_refl eq_refl eq_refl)
                 eq_refl _ _ eq_refl).
Defined.

(** ** Transport of scalar fields and geodesic matrices *)

(** What each resampling operation hands to the new Mesh. Index-based
    sub-selection and decimation carry every named scalar field to the new Mesh, restricted to the selected
    vertices, and hand it the cached geodesic matrix sub-selected as
    [G[idx][:, idx]] (none when none is cached); upsampling hands the new
    Mesh the geodesic matrix of the source, read through its getter,
    extrapolated to the new vertices. *)
Theorem resampling_transport util m :
  (forall idx res m',
      __getitem__ util idx m = (Ok res, m') ->
      carried (__scalars m) idx (__scalars res)
      /\ geodesic_subselected m idx res)
  /\ (forall n frac res idx m',
         decimate util n frac m = (Ok (res, idx), m') ->
         carried (__scalars m) idx (__scalars res)
         /\ geodesic_subselected m idx res)
  /\ (forall fuel target res idx m',
         upsample util fuel target m = Some (Ok (res, idx), m') ->
         exists gm,
           g util m = (Ok gm, m')
           /\ extrapolate_geodesic_matrix util (__v m) (__v res) gm (__f m)
              = Ok (__g res)).
Proof.
  repeat split.
  - rewrite getitem_eq in H.
    destruct (selected_geometry util m idx); [|discriminate].
    destruct (selected_geodesics m idx); [|discriminate].
    destruct (eigen util m) as [[ev|e] m1]; [|discriminate].
    destruct (unpack2 ev); [|discriminate].
    destruct (carry_scalars _ _ _ _) as [sc|e] eqn:Hsc; [|discriminate].
    inversion H; subst. simpl. apply carry_scalars_carried. exact Hsc.
  - rewrite getitem_eq in H. unfold geodesic_subselected.
    destruct (selected_geometry util m idx); [|discriminate].
    unfold selected_geodesics in H.
    destruct (Nat.eqb (size (__g m)) 0).
    + destruct (eigen util m) as [[ev|e] m1]; [|discriminate].
      destruct (unpack2 ev); [|discriminate].
      destruct (carry_scalars _ _ _ _); [|discriminate].
      inversion H; subst. reflexivity.
    + destruct (submatrix (__g m) idx) as [sub|e]; [|discriminate].
      destruct (eigen util m) as [[ev|e] m1]; [|discriminate].
      destruct (unpack2 ev); [|discriminate].
      destruct (carry_scalars _ _ _ _); [|discriminate].
      inversion H; subst. reflexivity.
  - rewrite decimate_eq in H.
    destruct (vedo_decimate util (__v m) (__f m) n frac) as [[[dv df] i]|e];
      [|discriminate].
    destruct (selected_geodesics m i); [|discriminate].
    destruct (carry_scalars _ _ _ _) as [sc|e] eqn:Hsc; [|discriminate].
    inversion H; subst. simpl. apply carry_scalars_carried. exact Hsc.
  - rewrite decimate_eq in H. unfold geodesic_subselected.
    destruct (vedo_decimate util (__v m) (__f m) n frac) as [[[dv df] i]|e];
      [|discriminate].
    unfold selected_geodesics in H.
    destruct (Nat.eqb (size (__g m)) 0) eqn:Hs.
    + destruct (carry_scalars _ _ _ _); [|discriminate].
      inversion H; subst. reflexivity.
    + destruct (submatrix (__g m) i) as [sub|e] eqn:Hsub; [|discriminate].
      destruct (carry_scalars _ _ _ _); [|discriminate].
      inversion H; subst. exact Hsub.
  - intros fuel target res idx m' H.
    destruct (upsample_inv _ _ _ _ H) as (uv & uf & gm & ug & _ & Hg & Hx & ->).
    exists gm. split; [exact Hg|exact Hx].
Qed.

(** The new Mesh of an upsampling has no scalar field. *)
Lemma upsample_scalars util fuel target m res idx m' :
  upsample util fuel target m = Some (Ok (res, idx), m') ->
  __scalars res = [].
Proof.
  intros H.
  destruct (upsample_inv _ _ _ _ H) as (uv & uf & gm & ug & _ & _ & _ & ->).
  reflexivity.
Qed.

(** C5. Upsampling changes the resolution and does not carry the scalar
    fields: [upsample] (lines 228-235) builds the new Mesh and returns it
    without the loop over [self.scalars] that [__getitem__] (53-54),
    [decimate] (224-225) and [copy] (63-64) run.  Upsampling the cached
    triangle, which has the field "height" = [5, 6, 7], to at least four
    vertices returns a Mesh of six vertices on which "height" is not
    defined. *)
Lemma upsample_drops_scalar_fields :
  exists res idx m',
    upsample simple 1 4 cached_triangle = Some (Ok (res, idx), m')
    /\ N res = 6%nat
    /\ dict_get (__scalars cached_triangle) "height"
       = Some (Arr1 [Num 5; Num 6; Num 7])
    /\ dict_get (__scalars res) "height" = None
    /\ ~ carried (__scalars cached_triangle) idx (__scalars res).
Proof.
  do 3 eexists. split; [reflexivity|]. repeat split.
  intros H. specialize (H "height"%string). simpl in H.
  destruct H as (x & _ & Hx). discriminate.
Qed.

(** The three operations on the cached triangle. *)
Lemma resampling_transport_witness :
  (exists res m',
      __getitem__ simple [0; 2]%Z cached_triangle = (Ok res, m')
      /\ carried (__scalars cached_triangle) [0; 2]%Z (__scalars res)
      /\ geodesic_subselected cached_triangle [0; 2]%Z res)
  /\ (exists res idx m',
         decimate simple None None cached_triangle = (Ok (res, idx), m')
         /\ carried (__scalars cached_triangle) idx (__scalars res)
         /\ geodesic_subselected cached_triangle idx res)
  /\ (exists res idx m' gm,
         upsample simple 1 4 cached_triangle = Some (Ok (res, idx), m')
         /\ g simple cached_triangle = (Ok gm, m')
         /\ extrapolate_geodesic_matrix simple (__v cached_triangle) (__v res)
              gm (__f cached_triangle) = Ok (__g res)).
Proof.
  destruct (resampling_transport simple cached_triangle) as (H1 & H2 & H3).
  split; [|split].
  - assert (E : exists res m',
               __getitem__ simple [0; 2]%Z cached_triangle = (Ok res, m'))
      by (do 2 eexists; cbv; reflexivity).
    destruct E as (res & m' & E). exists res, m'.
    split; [exact E|exact (H1 _ _ _ E)].
  - assert (E : exists res idx m',
               decimate simple None None cached_triangle = (Ok (res, idx), m'))
      by (do 3 eexists; cbv; reflexivity).
    destruct E as (res & idx & m' & E). exists res, idx, m'.
    split; [exact E|exact (H2 _ _ _ _ _ E)].
  - destruct (H3 1%nat 4%Z _ _ _ eq_refl) as (gm & Hg & Hx).
    do 4 eexists. split; [reflexivity|]. split; [exact Hg|exact Hx].
Defined.

End MeshProps.

(* ================================================================= *)
(** * Further properties of the product-manifold filter *)

Module FilterExtra.

Import Filter FilterSpec FilterProps.

(** ** When the kernel is returned, and its shape *)

Lemma np_index_ok (n : nat) (i : Z) (k : nat) :
  np_index n i = Ok k -> in_bounds n i /\ (k < n)%nat.
Proof.
  unfold np_index, in_bounds.
  destruct ((0 <=? i) && (i <? Z.of_nat n))%Z eqn:H1.
  - apply andb_true_iff in H1. destruct H1 as [H0 H1].
    apply Z.leb_le in H0. apply Z.ltb_lt in H1.
    intros H. injection H as <-. lia.
  - destruct ((- Z.of_nat n <=? i) && (i <? 0))%Z eqn:H2; [|discriminate].
    apply andb_true_iff in H2. destruct H2 as [H2 H3].
    apply Z.leb_le in H2. apply Z.ltb_lt in H3.
    intros H. injection H as <-. lia.
Qed.

Lemma item_ok {A} (a : list A) (i : Z) (x : A) :
  item a i = Ok x -> in_bounds (length a) i.
Proof.
  unfold item. destruct (np_index (length a) i) as [k|e] eqn:Hk; [|discriminate].
  intros _. eapply np_index_ok; eauto.
Qed.

Lemma item_raises {A} (a : list A) (i : Z) (e : exn) :
  item a i = Raise e -> e = ArrayError.
Proof.
  unfold item, np_index.
  destruct ((0 <=? i) && (i <? Z.of_nat (length a)))%Z; simpl.
  - destruct (nth_error a (Z.to_nat i)); [discriminate|congruence].
  - destruct ((- Z.of_nat (length a) <=? i) && (i <? 0))%Z; simpl.
    + destruct (nth_error a _); [discriminate|congruence].
    + congruence.
Qed.

Lemma mapR_raises {A B} (h : A -> result B) (l : list A) (e : exn) :
  (forall a e', h a = Raise e' -> e' = ArrayError) ->
  mapR h l = Raise e -> e = ArrayError.
Proof.
  intros Hh. induction l as [|a l IH]; simpl; [discriminate|].
  destruct (h a) as [b|e'] eqn:Hb; simpl.
  - destruct (mapR h l) as [bs|e'']; simpl; [discriminate|].
    intros H. injection H as <-. apply IH. reflexivity.
  - intros H. injection H as <-. eapply Hh; eauto.
Qed.

Lemma take_raises {A} (a : list A) (idx : list Z) (e : exn) :
  take a idx = Raise e -> e = ArrayError.
Proof. apply mapR_raises. intros i e'. apply item_raises. Qed.

Lemma take_cols_raises {A} (a : list (list A)) (idx : list Z) (e : exn) :
  take_cols a idx = Raise e -> e = ArrayError.
Proof. apply mapR_raises. intros row e'. apply take_raises. Qed.

Lemma take_in_bounds {A} (a : list A) (idx : list Z) (d : list A) :
  take a idx = Ok d -> Forall (in_bounds (length a)) idx.
Proof.
  intros H. apply mapR_ok in H.
  induction H as [|i x idx d Hi _ IH]; constructor; [|exact IH].
  eapply item_ok; eauto.
Qed.

Lemma take_cols_in_bounds {A} (a : list (list A)) (idx : list Z)
    (d : list (list A)) :
  take_cols a idx = Ok d ->
  Forall (fun row => Forall (in_bounds (length row)) idx) a.
Proof.
  intros H. apply mapR_ok in H.
  induction H as [|row x a d Hrow _ IH]; constructor; [|exact IH].
  eapply take_in_bounds; eauto.
Qed.

Lemma gaussian_kernel_bounds (G : matrix) (idx : list Z) sigma :
  Forall (fun row => Forall (in_bounds (length row)) idx) (gaussian_kernel G sigma)
  <-> Forall (fun row => Forall (in_bounds (length row)) idx) G.
Proof.
  unfold gaussian_kernel. rewrite Forall_map.
  split; apply Forall_impl; intros row; rewrite length_map; auto.
Qed.

(** The only exception of the kernel is the index-or-shape error. *)
Lemma kernel_raises gx gy ix iy sigma e :
  product_manifold_kernel gx gy ix iy sigma = Raise e -> e = ArrayError.
Proof.
  unfold product_manifold_kernel.
  destruct (take_cols (gaussian_kernel gx sigma) ix) as [A|e1] eqn:HA; simpl.
  2:{ intros H. injection H as <-. eapply take_cols_raises; eauto. }
  destruct (take_cols (gaussian_kernel gy sigma) iy) as [B|e1] eqn:HB; simpl.
  2:{ intros H. injection H as <-. eapply take_cols_raises; eauto. }
  unfold dot_T. destruct (Nat.eqb (length ix) (length iy)); simpl; [|congruence].
  unfold amax. destruct (concat _); simpl; [congruence|discriminate].
Qed.

Lemma kernel_ok_inputs gx gy ix iy sigma K :
  product_manifold_kernel gx gy ix iy sigma = Ok K ->
  kernel_inputs_ok gx gy ix iy.
Proof.
  unfold product_manifold_kernel, kernel_inputs_ok.
  destruct (take_cols (gaussian_kernel gx sigma) ix) as [A|e1] eqn:HA;
    simpl; [|discriminate].
  destruct (take_cols (gaussian_kernel gy sigma) iy) as [B|e1] eqn:HB;
    simpl; [|discriminate].
  unfold dot_T.
  destruct (Nat.eqb (length ix) (length iy)) eqn:Hlen; simpl; [|discriminate].
  unfold amax.
  destruct (concat _) as [|x xs] eqn:Hc; simpl; [discriminate|]. intros _.
  assert (HlA : length A = length gx).
  { apply mapR_ok in HA. apply Forall2_length in HA.
    unfold gaussian_kernel in HA. rewrite length_map in HA. congruence. }
  assert (HlB : length B = length gy).
  { apply mapR_ok in HB. apply Forall2_length in HB.
    unfold gaussian_kernel in HB. rewrite length_map in HB. congruence. }
  repeat split.
  - intros ->. destruct A; [discriminate Hc|discriminate HlA].
  - intros ->. destruct B; [|discriminate HlB].
    clear - Hc. induction A as [|ra A IH]; simpl in Hc; [discriminate|auto].
  - apply Nat.eqb_eq. exact Hlen.
  - apply (gaussian_kernel_bounds gx ix sigma). eapply take_cols_in_bounds; eauto.
  - apply (gaussian_kernel_bounds gy iy sigma). eapply take_cols_in_bounds; eauto.
Qed.

(** X1. For index sequences of numpy's index type (signed 64-bit
    values), the kernel is returned exactly on well-formed inputs (both
    matrices have a row, the index sequences have one length, every index
    is within [-n, n) of every row of length n), whatever sigma; on every
    other such input it raises the index-or-shape error. *)
Theorem kernel_returns_iff gx gy ix iy sigma :
  Forall intp ix -> Forall intp iy ->
  ((exists K, product_manifold_kernel gx gy ix iy sigma = Ok K)
   <-> kernel_inputs_ok gx gy ix iy)
  /\ (product_manifold_kernel gx gy ix iy sigma = Raise ArrayError
      <-> ~ kernel_inputs_ok gx gy ix iy).
Proof.
  intros _ _.
  assert (Hiff : (exists K, product_manifold_kernel gx gy ix iy sigma = Ok K)
                 <-> kernel_inputs_ok gx gy ix iy).
  { split.
    - intros [K HK]. eapply kernel_ok_inputs; eauto.
    - intros (H1 & H2 & H3 & H4 & H5). apply kernel_defined; assumption. }
  split; [exact Hiff|]. split.
  - intros Hr Hok. apply Hiff in Hok. destruct Hok as [K HK]. congruence.
  - intros Hn.
    destruct (product_manifold_kernel gx gy ix iy sigma) as [K|e] eqn:HK.
    + exfalso. apply Hn. apply Hiff. eauto.
    + f_equal. eapply kernel_raises; eauto.
Qed.

(** The two directions on a distance matrix of two vertices: the index
    [-1] selects, the index [2] raises. *)
Lemma kernel_returns_iff_witness :
  (Forall intp [-1]%Z
   /\ ((exists K, product_manifold_kernel [[Num 0; Num 1]; [Num 1; Num 0]]
                    [[Num 0; Num 1]; [Num 1; Num 0]] [-1]%Z [-1]%Z (Num 1)
                  = Ok K)
       <-> kernel_inputs_ok [[Num 0; Num 1]; [Num 1; Num 0]]
             [[Num 0; Num 1]; [Num 1; Num 0]] [-1]%Z [-1]%Z))
  /\ (Forall intp [2]%Z
      /\ (product_manifold_kernel [[Num 0; Num 1]; [Num 1; Num 0]]
            [[Num 0; Num 1]; [Num 1; Num 0]] [2]%Z [2]%Z (Num 1)
          = Raise ArrayError
          <-> ~ kernel_inputs_ok [[Num 0; Num 1]; [Num 1; Num 0]]
                  [[Num 0; Num 1]; [Num 1; Num 0]] [2]%Z [2]%Z)).
Proof.
  assert (H1 : Forall intp [-1]%Z) by (repeat constructor; unfold intp; lia).
  assert (H2 : Forall intp [2]%Z) by (repeat constructor; unfold intp; lia).
  split; split; try assumption.
  - exact (proj1 (@kernel_returns_iff [[Num 0; Num 1]; [Num 1; Num 0]]
                    [[Num 0; Num 1]; [Num 1; Num 0]] [-1]%Z [-1]%Z (Num 1)
                    H1 H1)).
  - exact (proj2 (@kernel_returns_iff [[Num 0; Num 1]; [Num 1; Num 0]]
                    [[Num 0; Num 1]; [Num 1; Num 0]] [2]%Z [2]%Z (Num 1)
                    H2 H2)).
Defined.

(** X2. A returned kernel has one row per row of [gx] and in each row one
    entry per row of [gy]. *)
Theorem kernel_shape gx gy ix iy sigma K :
  product_manifold_kernel gx gy ix iy sigma = Ok K ->
  length K = length gx /\ Forall (fun row => length row = length gy) K.
Proof.
  unfold product_manifold_kernel.
  destruct (take_cols (gaussian_kernel gx sigma) ix) as [A|e1] eqn:HA;
    simpl; [|discriminate].
  destruct (take_cols (gaussian_kernel gy sigma) iy) as [B|e1] eqn:HB;
    simpl; [|discriminate].
  unfold dot_T. destruct (Nat.eqb (length ix) (length iy)); simpl; [|discriminate].
  destruct (amax _); simpl; [|discriminate].
  intros H. injection H as <-.
  apply mapR_ok in HA. apply Forall2_length in HA.
  apply mapR_ok in HB. apply Forall2_length in HB.
  unfold gaussian_kernel in HA, HB. rewrite length_map in HA, HB.
  split.
  - rewrite !length_map. congruence.
  - apply Forall_map. apply Forall_map. apply Forall_forall. intros ra _.
    rewrite !length_map. congruence.
Qed.

Lemma kernel_shape_witness :
  exists K,
    product_manifold_kernel
      [[Num 0; Num 1]; [Num 1; Num 0]] [[Num 0]] [0%Z; 1%Z] [0%Z; 0%Z] (Num 1)
    = Ok K
    /\ length K = 2%nat /\ Forall (fun row => length row = 1%nat) K.
Proof.
  eexists. split; [reflexivity|].
  apply (@kernel_shape [[Num 0; Num 1]; [Num 1; Num 0]] [[Num 0]]
           [0%Z; 1%Z] [0%Z; 0%Z] (Num 1)).
  reflexivity.
Defined.

(** ** The sign of the bandwidth *)

Local Open Scope R_scope.

Lemma is_zero_opp r : is_zero (- r) = is_zero r.
Proof.
  unfold is_zero.
  destruct (Req_dec_T (- r) 0), (Req_dec_T r 0); try reflexivity; exfalso; lra.
Qed.

Lemma fsqr_fneg x : fsqr (fneg x) = fsqr x.
Proof.
  destruct x as [a| | |]; simpl; try reflexivity.
  unfold fsqr. simpl. f_equal. ring.
Qed.

Lemma inf_of_sign_opp r : inf_of_sign (- r) = fneg (inf_of_sign r).
Proof.
  unfold inf_of_sign. rewrite is_zero_opp.
  destruct (is_zero r) eqn:Hz; [reflexivity|].
  unfold is_zero in Hz. destruct (Req_dec_T r 0); [discriminate|].
  unfold is_pos. destruct (Rlt_dec 0 (- r)), (Rlt_dec 0 r);
    try reflexivity; exfalso; lra.
Qed.

Lemma fneg_involutive x : fneg (fneg x) = x.
Proof. destruct x; simpl; try reflexivity. f_equal. ring. Qed.

Lemma fsqr_fdiv_fneg x s : fsqr (fdiv x (fneg s)) = fsqr (fdiv x s).
Proof.
  destruct x as [a| | |], s as [b| | |]; simpl; try reflexivity.
  - rewrite is_zero_opp. destruct (is_zero b) eqn:Hz; [reflexivity|].
    unfold is_zero in Hz. destruct (Req_dec_T b 0); [discriminate|].
    unfold fsqr. simpl. f_equal. field. assumption.
  - rewrite is_zero_opp. destruct (is_zero b); [reflexivity|].
    rewrite inf_of_sign_opp. apply fsqr_fneg.
  - rewrite is_zero_opp. destruct (is_zero b); [reflexivity|].
    rewrite inf_of_sign_opp, fneg_involutive.
    rewrite <- (fsqr_fneg (inf_of_sign b)). reflexivity.
Qed.

Lemma gaussian_fneg x s : gaussian x (fneg s) = gaussian x s.
Proof. unfold gaussian. rewrite fsqr_fdiv_fneg. reflexivity. Qed.

(** X3. The kernel depends on the bandwidth through its square only: the
    bandwidth [-sigma] gives the kernel of [sigma], for every float64
    bandwidth and every float64 entry, and so the same result or the same
    exception. *)
Theorem kernel_sign_of_sigma gx gy ix iy sigma :
  product_manifold_kernel gx gy ix iy (fneg sigma)
  = product_manifold_kernel gx gy ix iy sigma.
Proof.
  unfold product_manifold_kernel.
  assert (H : forall G, gaussian_kernel G (fneg sigma) = gaussian_kernel G sigma).
  { intros G. unfold gaussian_kernel. apply map_ext. intros row.
    apply map_ext. intros e. apply gaussian_fneg. }
  rewrite !H. reflexivity.
Qed.

Local Close Scope R_scope.

(** ** Which entries of the geodesic matrices the kernel reads *)

Lemma item_wrap {A} (a : list A) (i : Z) :
  (0 <= i < Z.of_nat (length a))%Z ->
  item a (i - Z.of_nat (length a)) = item a i.
Proof.
  intros Hi. unfold item, np_index.
  destruct (Z.leb_spec 0 (i - Z.of_nat (length a))); [lia|].
  destruct (Z.ltb_spec (i - Z.of_nat (length a)) (Z.of_nat (length a))); simpl.
  - destruct (Z.leb_spec (- Z.of_nat (length a)) (i - Z.of_nat (length a))); [|lia].
    destruct (Z.ltb_spec (i - Z.of_nat (length a)) 0); [|lia]. simpl.
    destruct (Z.leb_spec 0 i); [|lia].
    destruct (Z.ltb_spec i (Z.of_nat (length a))); [|lia]. simpl.
    replace (i - Z.of_nat (length a) + Z.of_nat (length a))%Z with i by lia.
    reflexivity.
  - lia.
Qed.

Lemma take_wrap {A} (a : list A) (idx : list Z) :
  Forall (fun i => 0 <= i < Z.of_nat (length a))%Z idx ->
  take a (map (fun i => i - Z.of_nat (length a))%Z idx) = take a idx.
Proof.
  unfold take. induction 1 as [|i idx Hi _ IH]; simpl; [reflexivity|].
  rewrite item_wrap by assumption. rewrite IH. reflexivity.
Qed.

Lemma take_cols_wrap {A} (n : nat) (a : list (list A)) (idx : list Z) :
  Forall (fun row => length row = n) a ->
  Forall (fun i => 0 <= i < Z.of_nat n)%Z idx ->
  take_cols a (map (fun i => i - Z.of_nat n)%Z idx) = take_cols a idx.
Proof.
  intros Ha Hidx. unfold take_cols.
  induction Ha as [|row a Hrow _ IH]; simpl; [reflexivity|].
  subst n. rewrite take_wrap by assumption. rewrite IH. reflexivity.
Qed.

(** X5. Landmarks may be counted from the end: on an [n]-column geodesic
    matrix the landmark indices [i - n] give the kernel of the indices [i],
    for [0 <= i < n]. *)
Theorem kernel_negative_indices (n : nat) gx gy ix iy sigma :
  Forall (fun row => length row = n) gx ->
  Forall (fun i => 0 <= i < Z.of_nat n)%Z ix ->
  product_manifold_kernel gx gy (map (fun i => i - Z.of_nat n)%Z ix) iy sigma
  = product_manifold_kernel gx gy ix iy sigma.
Proof.
  intros Hgx Hix. unfold product_manifold_kernel.
  rewrite (@take_cols_wrap _ n), length_map; [reflexivity| |exact Hix].
  unfold gaussian_kernel. apply Forall_map.
  eapply Forall_impl; [|exact Hgx]. intros row. rewrite length_map. auto.
Qed.

Lemma kernel_negative_indices_witness :
  product_manifold_kernel
    [[Num 0; Num 1]; [Num 1; Num 0]] [[Num 0]] [(-1)%Z] [0%Z] (Num 1)
  = product_manifold_kernel
      [[Num 0; Num 1]; [Num 1; Num 0]] [[Num 0]] [1%Z] [0%Z] (Num 1).
Proof.
  apply (@kernel_negative_indices 2 [[Num 0; Num 1]; [Num 1; Num 0]] [[Num 0]]
           [1%Z] [0%Z] (Num 1)).
  - repeat constructor.
  - repeat constructor; lia.
Defined.

Lemma take_arange {A} (a : list A) : take a (arange (length a)) = Ok a.
Proof.
  unfold take, arange.
  assert (H : forall pre post : list A,
             mapR (item (pre ++ post))
                  (map Z.of_nat (seq (length pre) (length post))) = Ok post).
  { intros pre post. revert pre.
    induction post as [|x post IH]; intros pre; simpl; [reflexivity|].
    assert (Hx : item (pre ++ x :: post) (Z.of_nat (length pre)) = Ok x).
    { unfold item, np_index. rewrite length_app. simpl.
      destruct (Z.leb_spec 0 (Z.of_nat (length pre))); [|lia].
      destruct (Z.ltb_spec (Z.of_nat (length pre))
                  (Z.of_nat (length pre + S (length post)))); [|lia].
      simpl. rewrite Nat2Z.id, nth_error_app2 by lia.
      rewrite Nat.sub_diag. reflexivity. }
    rewrite Hx. simpl.
    specialize (IH (pre ++ [x])). rewrite <- app_assoc in IH. simpl in IH.
    rewrite length_app in IH. simpl in IH.
    rewrite Nat.add_1_r in IH. rewrite IH. reflexivity. }
  apply (H [] a).
Qed.

Lemma take_cols_arange {A} (n : nat) (a : list (list A)) :
  Forall (fun row => length row = n) a ->
  take_cols a (arange n) = Ok a.
Proof.
  unfold take_cols. induction 1 as [|row a Hrow _ IH]; simpl; [reflexivity|].
  subst n. rewrite take_arange. simpl. rewrite IH. reflexivity.
Qed.

Lemma take_cols_gaussian_kernel (G : matrix) (idx : list Z) sigma :
  take_cols (gaussian_kernel G sigma) idx
  = (A <- take_cols G idx ;; Ok (gaussian_kernel A sigma))%res.
Proof.
  unfold take_cols, gaussian_kernel.
  induction G as [|row G IH]; simpl; [reflexivity|].
  rewrite take_map. destruct (take row idx) as [d|e]; simpl; [|reflexivity].
  rewrite IH. destruct (mapR _ G); reflexivity.
Qed.

Lemma arange_length n : length (arange n) = n.
Proof. unfold arange. rewrite length_map, length_seq. reflexivity. Qed.

(** X6. The kernel reads the geodesic matrices at the landmark columns
    only: the matrices of the selected columns [gx[:, ix]] and [gy[:, iy]],
    with the landmarks renumbered 0, 1, ..., give the same kernel. *)
Theorem kernel_reads_landmark_columns gx gy ix iy sigma A B :
  take_cols gx ix = Ok A ->
  take_cols gy iy = Ok B ->
  product_manifold_kernel A B (arange (length ix)) (arange (length iy)) sigma
  = product_manifold_kernel gx gy ix iy sigma.
Proof.
  intros HA HB. unfold product_manifold_kernel.
  rewrite (take_cols_gaussian_kernel gx), (take_cols_gaussian_kernel gy), HA, HB.
  simpl.
  assert (Hrows : forall (G D : matrix) idx,
             take_cols G idx = Ok D ->
             Forall (fun row => length row = length idx) (gaussian_kernel D sigma)).
  { intros G D idx H.
    destruct (@take_cols_ok _ (fun _ => True) G idx D) as [Hd _].
    - apply Forall_forall. intros row _. apply Forall_forall. auto.
    - exact H.
    - unfold gaussian_kernel. apply Forall_map.
      eapply Forall_impl; [|exact Hd]. intros row [_ Hl].
      rewrite length_map. exact Hl. }
  rewrite (take_cols_arange (Hrows _ _ _ HA)), (take_cols_arange (Hrows _ _ _ HB)).
  simpl. rewrite !arange_length. reflexivity.
Qed.

Lemma kernel_reads_landmark_columns_witness :
  product_manifold_kernel [[Num 1]; [Num 0]] [[Num 0]] [0%Z] [0%Z] (Num 1)
  = product_manifold_kernel
      [[Num 0; Num 1]; [Num 1; Num 0]] [[Num 0]] [1%Z] [0%Z] (Num 1).
Proof.
  apply (@kernel_reads_landmark_columns
           [[Num 0; Num 1]; [Num 1; Num 0]] [[Num 0]] [1%Z] [0%Z] (Num 1)
           [[Num 1]; [Num 0]] [[Num 0]]); reflexivity.
Defined.

(** ** The refinement loop *)

Section LoopFacts.

Variable St : Type.
Variable assignment_functor : strategy St.
Variables gx gy : matrix.

Lemma refine_is_rounds (n : nat) i j sigma gamma s :
  product_manifold_filter_correspondence
    assignment_functor gx gy i j sigma gamma (Z.of_nat n) s
  = rounds assignment_functor gx gy n i j sigma gamma s.
Proof.
  unfold product_manifold_filter_correspondence, for_range.
  rewrite Nat2Z.id. apply loop_is_rounds.
Qed.

Lemma rounds_app (n m : nat) :
  forall i j sigma gamma s,
    rounds assignment_functor gx gy (n + m) i j sigma gamma s
    = (ij <- rounds assignment_functor gx gy n i j sigma gamma ;;
       rounds assignment_functor gx gy m (fst ij) (snd ij)
              (anneal n sigma gamma) gamma)%monad s.
Proof.
  induction n as [|n IH]; intros i j sigma gamma s; simpl.
  - reflexivity.
  - unfold bind, lift.
    destruct (round_kernel gx gy i j sigma) as [K|e]; [|reflexivity].
    destruct (assignment_functor K s) as [[ij|e] s1]; [|reflexivity].
    rewrite IH. reflexivity.
Qed.

(** X7. Refinements compose: [n + m] iterations from [sigma] are [n]
    iterations from [sigma] followed by [m] iterations that start from the
    correspondence reached and from the bandwidth annealed [n] times; an
    exception in the first part is the exception of the whole. *)
Theorem refine_compose (n m : nat) i j sigma gamma s :
  product_manifold_filter_correspondence
    assignment_functor gx gy i j sigma gamma (Z.of_nat (n + m)) s
  = (ij <- product_manifold_filter_correspondence
             assignment_functor gx gy i j sigma gamma (Z.of_nat n) ;;
     product_manifold_filter_correspondence
       assignment_functor gx gy (fst ij) (snd ij)
       (anneal n sigma gamma) gamma (Z.of_nat m))%monad s.
Proof.
  rewrite refine_is_rounds, rounds_app. unfold bind.
  rewrite refine_is_rounds.
  destruct (rounds assignment_functor gx gy n i j sigma gamma s)
    as [[ij|e] s1]; [|reflexivity].
  rewrite refine_is_rounds. reflexivity.
Qed.

(** X8. A negative iteration count is an empty loop: for every
    [iterations <= 0] the refinement from a correspondence returns its
    input and never calls the strategy, and the refinement from a matrix is
    the one application of the strategy to the matrix. *)
Theorem nonpositive_iterations (iterations : Z) i j P sigma gamma s :
  (iterations <= 0)%Z ->
  product_manifold_filter_correspondence
    assignment_functor gx gy i j sigma gamma iterations s = (Ok (i, j), s)
  /\ product_manifold_filter_assignment
       assignment_functor gx gy P sigma gamma iterations s
     = assignment_functor P s.
Proof.
  intros Hn.
  assert (H0 : forall i j s,
             product_manifold_filter_correspondence
               assignment_functor gx gy i j sigma gamma iterations s
             = (Ok (i, j), s)).
  { intros i0 j0 s0. unfold product_manifold_filter_correspondence, for_range.
    replace (Z.to_nat iterations) with O by lia. reflexivity. }
  split; [apply H0|].
  unfold product_manifold_filter_assignment, bind.
  destruct (assignment_functor P s) as [[[i' j']|e] s']; [|reflexivity].
  apply H0.
Qed.

(** X9. With [gamma = 1] a correspondence that the strategy reproduces
    from its own kernel, without changing its state, is a fixed point: every
    number of iterations returns it. *)
Theorem refine_fixed_point (sigma : R) i j K s :
  product_manifold_kernel gx gy i j (Num sigma) = Ok K ->
  assignment_functor K s = (Ok (i, j), s) ->
  forall n : nat,
    product_manifold_filter_correspondence
      assignment_functor gx gy i j (Num sigma) (Num 1) (Z.of_nat n) s
    = (Ok (i, j), s).
Proof.
  intros HK Hf n. rewrite refine_is_rounds.
  induction n as [|n IH]; simpl; [reflexivity|].
  unfold bind, lift. rewrite <- kernel_is_round_kernel, HK, Hf. simpl.
  rewrite Rmult_1_r. exact IH.
Qed.

End LoopFacts.

Lemma nonpositive_iterations_witness :
  product_manifold_filter_correspondence
    (constant_strategy [1%Z] [1%Z]) [[Num 0]] [[Num 0]] [0%Z] [0%Z]
    (Num 1) (Num 1) (-3) tt = (Ok ([0%Z], [0%Z]), tt)
  /\ product_manifold_filter_assignment
       (constant_strategy [1%Z] [1%Z]) [[Num 0]] [[Num 0]] [[Num 1]]
       (Num 1) (Num 1) (-3) tt
     = constant_strategy [1%Z] [1%Z] [[Num 1]] tt.
Proof.
  apply (@nonpositive_iterations unit (constant_strategy [1%Z] [1%Z])
           [[Num 0]] [[Num 0]] (-3)%Z [0%Z] [0%Z] [[Num 1]] (Num 1) (Num 1) tt).
  lia.
Defined.

Lemma refine_fixed_point_witness :
  product_manifold_filter_correspondence
    (constant_strategy [0%Z] [0%Z]) [[Num 0]] [[Num 0]] [0%Z] [0%Z]
    (Num 1) (Num 1) 5 tt = (Ok ([0%Z], [0%Z]), tt).
Proof.
  eapply (@refine_fixed_point unit (constant_strategy [0%Z] [0%Z])
            [[Num 0]] [[Num 0]] 1%R [0%Z] [0%Z] _ tt) with (n := 5%nat);
    reflexivity.
Defined.

(** A run calls the strategy at most once per iteration, whatever its
    outcome, and once per iteration when it returns. *)
Lemma rounds_calls St (f : strategy St) gx gy (n : nat) :
  forall i j sigma gamma s c r s' c',
    rounds (counted f) gx gy n i j sigma gamma (s, c) = (r, (s', c')) ->
    (c <= c' <= c + n)%nat
    /\ (forall ij, r = Ok ij -> c' = (c + n)%nat).
Proof.
  induction n as [|n IH]; intros i j sigma gamma s c r s' c'; simpl.
  - unfold ret. intros H. inversion H; subst. split; [lia|intros; lia].
  - unfold bind, lift.
    destruct (round_kernel gx gy i j sigma) as [K|e].
    + unfold counted at 1. simpl.
      destruct (f K s) as [[ij|e] s1].
      * intros H. apply IH in H. destruct H as [H1 H2].
        split; [lia|]. intros ij' Hr. rewrite (H2 _ Hr). lia.
      * intros H. inversion H; subst. split; [lia|discriminate].
    + intros H. inversion H; subst. split; [lia|discriminate].
Qed.

(** X10. The cost of a run in calls of the strategy: the refinement from
    a correspondence makes at most [n] calls and exactly [n] when it
    returns; the refinement from a matrix makes at least one and at most
    [n + 1] calls, and exactly [n + 1] when it returns. *)
Theorem strategy_calls St (f : strategy St) gx gy (n : nat)
    i j P sigma gamma s c r s' c' :
  (product_manifold_filter_correspondence
     (counted f) gx gy i j sigma gamma (Z.of_nat n) (s, c) = (r, (s', c')) ->
   (c <= c' <= c + n)%nat /\ (forall ij, r = Ok ij -> c' = (c + n)%nat))
  /\ (product_manifold_filter_assignment
        (counted f) gx gy P sigma gamma (Z.of_nat n) (s, c) = (r, (s', c')) ->
      (c + 1 <= c' <= c + n + 1)%nat
      /\ (forall ij, r = Ok ij -> c' = (c + n + 1)%nat)).
Proof.
  split.
  - rewrite refine_is_rounds. apply rounds_calls.
  - unfold product_manifold_filter_assignment, bind.
    unfold counted at 1. simpl.
    destruct (f P s) as [[ij|e] s1].
    + rewrite refine_is_rounds. intros H. apply rounds_calls in H.
      destruct H as [H1 H2]. split; [lia|].
      intros ij' Hr. rewrite (H2 _ Hr). lia.
    + intros H. inversion H; subst. split; [lia|discriminate].
Qed.

Lemma strategy_calls_witness :
  exists r s' c',
    product_manifold_filter_assignment
      (counted (constant_strategy [0%Z] [0%Z]))
      [[Num 0]] [[Num 0]] [[Num 1]] (Num 1) (Num 1) 2 (tt, 0%nat)
    = (r, (s', c'))
    /\ (1 <= c' <= 3)%nat /\ (forall ij, r = Ok ij -> c' = 3%nat).
Proof.
  assert (E : exists r s' c',
             product_manifold_filter_assignment
               (counted (constant_strategy [0%Z] [0%Z]))
               [[Num 0]] [[Num 0]] [[Num 1]] (Num 1) (Num 1) 2 (tt, 0%nat)
             = (r, (s', c')))
    by (do 3 eexists; reflexivity).
  destruct E as (r & s' & c' & E). exists r, s', c'. split; [exact E|].
  exact (proj2 (@strategy_calls unit (constant_strategy [0%Z] [0%Z])
                  [[Num 0]] [[Num 0]] 2 [] [] [[Num 1]] (Num 1) (Num 1)
                  tt 0%nat r s' c') E).
Defined.

End FilterExtra.

(* ================================================================= *)
(** * Further properties of the Mesh class *)

Module MeshExtra.

Import MeshClass MeshSpec MeshProps.

(** ** Assigning and reading the caches *)

(** X11. An assigned cache is what the next read returns: after the
    setter of the geodesic matrix, the Laplacian, the mass matrix, the
    normals or the eigenbasis has been given a value with entries, and
    after the constructor has been given such a geodesic matrix, the read of
    that property returns the value and calls no collaborator. *)
Theorem assigned_cache_is_read util m :
  (forall G, size G <> O ->
     g util (snd (set_g G m)) = (Ok G, snd (set_g G m)))
  /\ (forall L, sp_size L <> O ->
       l util (snd (set_l L m)) = (Ok L, snd (set_l L m)))
  /\ (forall X, sp_size X <> O ->
       mass util (snd (set_mass X m)) = (Ok X, snd (set_mass X m)))
  /\ (forall X, size X <> O ->
       normals util (snd (set_normals X m)) = (Ok X, snd (set_normals X m)))
  /\ (forall E, existsb (fun e => Nat.eqb (size e) 0) E = false ->
       eigen util (snd (set_eigen E m)) = (Ok E, snd (set_eigen E m)))
  /\ (forall nv nf G rank ty, size G <> O ->
       g util (__init__ nv nf G rank ty) = (Ok G, __init__ nv nf G rank ty)).
Proof.
  repeat split.
  - intros G HG. apply (g_cached util (snd (set_g G m))).
    simpl. apply Nat.eqb_neq. exact HG.
  - intros L HL. apply (l_cached util (snd (set_l L m))).
    simpl. apply Nat.eqb_neq. exact HL.
  - intros X HX. apply (mass_cached util (snd (set_mass X m))).
    simpl. apply Nat.eqb_neq. exact HX.
  - intros X HX. apply (normals_cached util (snd (set_normals X m))).
    simpl. apply Nat.eqb_neq. exact HX.
  - intros E HE. apply (eigen_cached util (snd (set_eigen E m))). exact HE.
  - intros nv nf G rank ty HG. apply (g_cached util (__init__ nv nf G rank ty)).
    simpl. apply Nat.eqb_neq. exact HG.
Qed.

Lemma assigned_cache_is_read_witness :
  g unavailable (snd (set_g (zeros 3) fresh_triangle))
  = (Ok (zeros 3), snd (set_g (zeros 3) fresh_triangle))
  /\ g unavailable (__init__ triangle_v triangle_f (zeros 3) 2 "t"%string)
     = (Ok (zeros 3), __init__ triangle_v triangle_f (zeros 3) 2 "t"%string).
Proof.
  destruct (assigned_cache_is_read unavailable fresh_triangle)
    as (H1 & _ & _ & _ & _ & H6).
  split; [apply H1|apply H6]; discriminate.
Defined.

(** X12. Assigning an empty array to the geodesic cache invalidates it:
    after new vertices and then an empty geodesic matrix have been assigned,
    the next read computes the geodesic matrix of the new vertices (and of
    the faces as they are) and stores it. *)
Theorem empty_assignment_invalidates util m (nv : vertices) :
  let m1 := with_v nv m in
  g util (snd (set_g empty_array (snd (set_v nv m))))
  = match geodesic_of util m1 with
    | Ok G => (Ok G, with_g G m1)
    | Raise e => (Raise e, with_g empty_array m1)
    end
  /\ (Nat.leb (shape0 nv) 500 = true ->
      geodesic_of util m1 = geodesicMatrix util nv (__f m)).
Proof.
  intros m1. split.
  - rewrite (g_computed util (snd (set_g empty_array (snd (set_v nv m)))))
      by reflexivity.
    change (geodesic_of util (snd (set_g empty_array (snd (set_v nv m)))))
      with (geodesic_of util m1).
    destruct (geodesic_of util m1); reflexivity.
  - intros H. unfold geodesic_of, N. simpl. rewrite H. reflexivity.
Qed.

Lemma empty_assignment_invalidates_witness :
  g simple (snd (set_g empty_array (snd (set_v square_v cached_triangle))))
  = (Ok (zeros 4), with_g (zeros 4) (with_v square_v cached_triangle)).
Proof.
  exact (proj1 (empty_assignment_invalidates simple cached_triangle square_v)).
Defined.

(** X13. The Gaussian-curvature property works once its setter has been
    used: after an assignment of a curvature array with entries the read
    returns that array; after an assignment of an empty array the read
    computes the curvature of the current geometry and stores it. *)
Theorem gaussian_after_setter util m (a : ndarray float64) :
  (size a <> O ->
   gaussian util (snd (set_gaussian a m)) = (Ok a, snd (set_gaussian a m)))
  /\ (size a = O ->
      gaussian util (snd (set_gaussian a m))
      = match gaussianCurvature util (__v m) (__f m) with
        | Ok x => (Ok x, with_gaussian x m)
        | Raise e => (Raise e, with_gaussian a m)
        end).
Proof.
  split; intros Ha; unfold gaussian; run.
  - rewrite (proj2 (Nat.eqb_neq _ _) Ha). reflexivity.
  - rewrite Ha. simpl.
    destruct (gaussianCurvature util (__v m) (__f m)); reflexivity.
Qed.

Lemma gaussian_after_setter_witness :
  gaussian unavailable (snd (set_gaussian (Arr1 [Num 0; Num 0; Num 0]) fresh_triangle))
  = (Ok (Arr1 [Num 0; Num 0; Num 0]),
     snd (set_gaussian (Arr1 [Num 0; Num 0; Num 0]) fresh_triangle))
  /\ gaussian simple (snd (set_gaussian empty_array fresh_triangle))
     = (Ok (Arr1 [Num 0; Num 0; Num 0]),
        with_gaussian (Arr1 [Num 0; Num 0; Num 0]) fresh_triangle).
Proof.
  split.
  - apply (proj1 (gaussian_after_setter unavailable fresh_triangle
                    (Arr1 [Num 0; Num 0; Num 0]))).
    discriminate.
  - apply (proj2 (gaussian_after_setter simple fresh_triangle empty_array)).
    reflexivity.
Defined.

(** What a read that returns has stored. *)
Lemma read_stores util (d : derived) m x m1 :
  read util d m = (Ok x, m1) -> cache d m1 = x.
Proof.
  destruct d; unfold read, bind; simpl.
  - destruct (l util m) as [[y|e] m0] eqn:E; intros H; inversion H; subst.
    revert E. unfold l. run.
    destruct (Nat.eqb (sp_size (__l m)) 0).
    + destruct (cotmatrix util (__v m) (__f m)); simpl;
        intros E; inversion E; subst; reflexivity.
    + intros E; inversion E; subst; reflexivity.
  - destruct (mass util m) as [[y|e] m0] eqn:E; intros H; inversion H; subst.
    revert E. unfold mass. run.
    destruct (Nat.eqb (sp_size (__mass m)) 0).
    + destruct (massmatrix util (__v m) (__f m)); simpl;
        intros E; inversion E; subst; reflexivity.
    + intros E; inversion E; subst; reflexivity.
  - destruct (eigen util m) as [[y|e] m0] eqn:E; intros H; inversion H; subst.
    destruct (eigen_effect util m) as (lx & mx & _ & Ho).
    rewrite (Ho _ _ E). reflexivity.
  - destruct (g util m) as [[y|e] m0] eqn:E; intros H; inversion H; subst.
    destruct (Nat.eqb (size (__g m)) 0) eqn:Hs.
    + rewrite g_computed in E by assumption.
      destruct (geodesic_of util m); inversion E; subst; reflexivity.
    + rewrite g_cached in E by assumption. inversion E; subst; reflexivity.
  - destruct (normals util m) as [[y|e] m0] eqn:E; intros H; inversion H; subst.
    revert E. unfold normals. run.
    destruct (Nat.eqb (size (__normals m)) 0).
    + destruct (per_vertex_normals util (__v m) (__f m)); simpl;
        intros E; inversion E; subst; reflexivity.
    + intros E; inversion E; subst; reflexivity.
Qed.

Lemma read_present util (d : derived) m :
  MeshMethods.present (cache d m) = true -> read util d m = (Ok (cache d m), m).
Proof.
  destruct d; simpl; rewrite negb_true_iff; intros H; unfold read, bind.
  - rewrite l_cached by assumption. reflexivity.
  - rewrite mass_cached by assumption. reflexivity.
  - rewrite eigen_cached by assumption. reflexivity.
  - rewrite g_cached by assumption. reflexivity.
  - rewrite normals_cached by assumption. reflexivity.
Qed.

(** X14. Reads are idempotent: when the read of a derived property
    returns a value with entries, every later read of it returns the same
    value, leaves the Mesh as it is and calls no collaborator. *)
Theorem read_twice util (d : derived) m x m1 :
  read util d m = (Ok x, m1) ->
  MeshMethods.present x = true ->
  forall util', read util' d m1 = (Ok x, m1).
Proof.
  intros Hr Hx util'. apply read_stores in Hr. subst x.
  apply read_present. exact Hx.
Qed.

Lemma read_twice_witness :
  exists x m1,
    read MeshMethods.solving Eigenbasis fresh_triangle = (Ok x, m1)
    /\ read unavailable Eigenbasis m1 = (Ok x, m1)
    /\ populated m1 = false.
Proof.
  assert (E : exists x m1,
             read MeshMethods.solving Eigenbasis fresh_triangle = (Ok x, m1))
    by (do 2 eexists; cbv; reflexivity).
  destruct E as (x & m1 & E). exists x, m1. split; [exact E|].
  pose proof E as E'. cbv in E'. inversion E'; subst. split.
  - apply (@read_twice MeshMethods.solving Eigenbasis fresh_triangle _ _ E).
    reflexivity.
  - reflexivity.
Defined.

(** ** The eigenbasis and the rank *)

(** X15. The eigenbasis is solved from the cached operators at the
    current rank: with the Laplacian and the mass matrix cached and the
    eigenbasis cache empty, a read of the eigenbasis is one call of the
    eigensolver on the cached Laplacian, the cached mass matrix and the
    current rank, stored when it returns; in particular after the rank has
    grown to [k] the next read solves at rank [k]. *)
Theorem eigen_from_cached_operators util m :
  Nat.eqb (sp_size (__l m)) 0 = false ->
  Nat.eqb (sp_size (__mass m)) 0 = false ->
  (existsb (fun e => Nat.eqb (size e) 0) (__eigen m) = true ->
   eigen util m
   = match laplace_eigen_decomposition util (__l m) (__mass m) (__k m) with
     | Ok ev => (Ok ev, with_eigen ev m)
     | Raise e => (Raise e, m)
     end)
  /\ (forall rank, (__k m < rank)%Z ->
      eigen util (snd (set_k rank m))
      = match laplace_eigen_decomposition util (__l m) (__mass m) rank with
        | Ok ev => (Ok ev, with_eigen ev (snd (set_k rank m)))
        | Raise e => (Raise e, snd (set_k rank m))
        end).
Proof.
  intros Hl Hm.
  assert (H : forall m0,
             Nat.eqb (sp_size (__l m0)) 0 = false ->
             Nat.eqb (sp_size (__mass m0)) 0 = false ->
             existsb (fun e => Nat.eqb (size e) 0) (__eigen m0) = true ->
             eigen util m0
             = match laplace_eigen_decomposition util (__l m0) (__mass m0) (__k m0) with
               | Ok ev => (Ok ev, with_eigen ev m0)
               | Raise e => (Raise e, m0)
               end).
  { intros m0 Hl0 Hm0 He0. unfold eigen. run. rewrite He0. unfold bind.
    rewrite (l_cached util m0 Hl0), (mass_cached util m0 Hm0).
    unfold k. run.
    destruct (laplace_eigen_decomposition util (__l m0) (__mass m0) (__k m0));
      reflexivity. }
  split; [apply H; assumption|].
  intros rank Hk. rewrite H.
  - reflexivity.
  - exact Hl.
  - exact Hm.
  - unfold set_k. run. destruct (Z.leb_spec rank (__k m)); [lia|reflexivity].
Qed.

Lemma eigen_from_cached_operators_witness :
  eigen MeshMethods.solving (snd (set_k 3 cached_triangle))
  = (Ok [Arr1 [Num 0; Num 0; Num 0];
         Arr2 [[Num 1; Num 1; Num 1]; [Num 1; Num 1; Num 1]; [Num 1; Num 1; Num 1]]],
     with_eigen
       [Arr1 [Num 0; Num 0; Num 0];
        Arr2 [[Num 1; Num 1; Num 1]; [Num 1; Num 1; Num 1]; [Num 1; Num 1; Num 1]]]
       (snd (set_k 3 cached_triangle))).
Proof.
  refine (proj2 (@eigen_from_cached_operators MeshMethods.solving cached_triangle
                   eq_refl eq_refl) 3%Z _).
  simpl. lia.
Defined.

Lemma slice_to_slice_to {A} (k1 k2 : Z) (xs : list A) :
  (0 <= k2 <= k1)%Z -> slice_to k2 (slice_to k1 xs) = slice_to k2 xs.
Proof.
  intros H. rewrite !slice_to_firstn by lia.
  rewrite firstn_firstn. f_equal. lia.
Qed.

Lemma slice_last_slice_last {A} (k1 k2 : Z) (a : ndarray A) :
  (0 <= k2 <= k1)%Z -> slice_last k2 (slice_last k1 a) = slice_last k2 a.
Proof.
  intros H. destruct a as [xs|rows]; simpl.
  - rewrite slice_to_slice_to by assumption. reflexivity.
  - rewrite map_map. f_equal. apply map_ext. intros row.
    apply slice_to_slice_to. assumption.
Qed.

(** X16. Shrinking the rank in two steps is shrinking it in one: for
    [0 <= k2 <= k1 <= rank], setting the rank to [k1] and then to [k2]
    leaves the Mesh that setting it to [k2] leaves. *)
Theorem rank_shrinks_compose m (k1 k2 : Z) :
  (0 <= k2 <= k1)%Z -> (k1 <= __k m)%Z ->
  snd (set_k k2 (snd (set_k k1 m))) = snd (set_k k2 m).
Proof.
  intros H12 H1. unfold set_k. run.
  destruct (Z.leb_spec k1 (__k m)); [|lia].
  destruct (Z.leb_spec k2 k1); [|lia].
  destruct (Z.leb_spec k2 (__k m)); [|lia].
  unfold with_k, with_eigen. simpl. f_equal.
  rewrite map_map. apply map_ext. intros a.
  apply slice_last_slice_last. assumption.
Qed.

Lemma rank_shrinks_compose_witness :
  snd (set_k 1 (snd (set_k 2 cached_triangle))) = snd (set_k 1 cached_triangle).
Proof.
  apply (@rank_shrinks_compose cached_triangle 2 1); simpl; lia.
Defined.

(** X17. The rank setter compares with the current rank, not with what
    the cache holds: after any assignment of a rank, assigning a larger one
    empties the eigenbasis, also when the cache still held that many
    eigenpairs before the first assignment. *)
Theorem rank_regrowth_empties m (k1 k2 : Z) :
  (k1 < k2)%Z ->
  __eigen (snd (set_k k2 (snd (set_k k1 m)))) = [empty_array; empty_array]
  /\ __k (snd (set_k k2 (snd (set_k k1 m)))) = k2.
Proof.
  intros H. unfold set_k. run.
  destruct (Z.leb_spec k2 k1); [lia|]. split; reflexivity.
Qed.

Lemma rank_regrowth_empties_witness :
  __k cached_triangle = 2%Z
  /\ __eigen (snd (set_k 2 (snd (set_k 1 cached_triangle))))
     = [empty_array; empty_array].
Proof.
  split; [reflexivity|].
  apply (@rank_regrowth_empties cached_triangle 1 2). lia.
Defined.

(** X18. A negative rank is a slice from the end: for [k < 0] not above
    the current rank the setter drops the last [-k] eigenvalues and the
    last [-k] columns of the eigenvectors, and records the rank [k]. *)
Theorem negative_rank m (k : Z) (evals : list float64) (evecs : list (list float64)) :
  __eigen m = [Arr1 evals; Arr2 evecs] ->
  (k < 0)%Z -> (k <= __k m)%Z ->
  __eigen (snd (set_k k m))
  = [Arr1 (firstn (length evals - Z.to_nat (- k)) evals);
     Arr2 (map (fun row => firstn (length row - Z.to_nat (- k)) row) evecs)]
  /\ __k (snd (set_k k m)) = k.
Proof.
  intros He Hk Hle. unfold set_k. run.
  destruct (Z.leb_spec k (__k m)); [|lia]. rewrite He. simpl.
  unfold slice_to. destruct (Z.leb_spec 0 k); [lia|]. split; reflexivity.
Qed.

Lemma negative_rank_witness :
  __eigen (snd (set_k (-1) cached_triangle))
  = [Arr1 [Num 0]; Arr2 [[Num 1]; [Num 1]; [Num 1]]]
  /\ __k (snd (set_k (-1) cached_triangle)) = (-1)%Z.
Proof.
  apply (@negative_rank cached_triangle (-1) [Num 0; Num 3]
           [[Num 1; Num 1]; [Num 1; Num 0]; [Num 1; Num (-1)]] eq_refl);
    simpl; lia.
Defined.

(** ** Copies *)

Lemma copy_scalars_spec src :
  forall fns acc,
    (forall fn, In fn fns -> dict_get src fn <> None) ->
    exists sc,
      MeshMethods.copy_scalars src fns acc = Ok sc
      /\ forall fn,
           (In fn fns -> dict_get sc fn = dict_get src fn)
           /\ (~ In fn fns -> dict_get sc fn = dict_get acc fn).
Proof.
  induction fns as [|fn0 fns IH]; intros acc Hin; simpl.
  - exists acc. split; [reflexivity|]. intros fn. split; [contradiction|reflexivity].
  - destruct (dict_get src fn0) as [a0|] eqn:Ha.
    2:{ exfalso. apply (Hin fn0); [left; reflexivity|exact Ha]. }
    simpl.
    destruct (IH (dict_set acc fn0 (copy a0))) as (sc & Hsc & Hspec).
    { intros fn Hfn. apply Hin. right. exact Hfn. }
    exists sc. split; [exact Hsc|]. intros fn.
    destruct (Hspec fn) as [Hi Ho].
    destruct (in_dec string_dec fn fns) as [Hfn|Hfn].
    + split; [intros _; auto|]. simpl. tauto.
    + split.
      * intros [->|Hc]; [|contradiction].
        rewrite (Ho Hfn), Ha. apply dict_get_set_same.
      * simpl. intros Hn. rewrite (Ho Hfn). apply dict_get_set_other. tauto.
Qed.

(** X19. [copy] always returns, leaves the source as it is and calls no
    collaborator.  The copy has the vertices, faces, geodesic matrix, rank,
    type, mass matrix, normals, eigenbasis and scalar fields of the source;
    it does not have its Laplacian (the cache of the copy is empty) nor its
    Gaussian curvature (a read of it on the copy raises, also when the
    source held one). *)
Theorem copy_of_mesh m :
  exists res,
    MeshMethods.copy m = (Ok res, m)
    /\ (__v res, __f res, __g res, __k res, __type res)
       = (__v m, __f m, __g m, __k m, __type m)
    /\ (__mass res, __normals res, __eigen res)
       = (__mass m, __normals m, __eigen m)
    /\ (forall fn, dict_get (__scalars res) fn = dict_get (__scalars m) fn)
    /\ __l res = SpEmpty
    /\ forall util, gaussian util res = (Raise AttributeError, res).
Proof.
  unfold MeshMethods.copy, scalars. run.
  destruct (@copy_scalars_spec (__scalars m) (keys (__scalars m)) [])
    as (sc & Hsc & Hspec).
  { intros fn Hfn. apply dict_get_keys. exact Hfn. }
  rewrite Hsc. eexists. split; [reflexivity|]. simpl.
  repeat split.
  - unfold copy. rewrite map_id. reflexivity.
  - intros fn. destruct (Hspec fn) as [Hi Ho].
    destruct (in_dec string_dec fn (keys (__scalars m))) as [Hfn|Hfn]; [auto|].
    rewrite (Ho Hfn). simpl.
    destruct (dict_get (__scalars m) fn) eqn:Hg; [|reflexivity].
    exfalso. apply Hfn. apply dict_get_keys. congruence.
Qed.

(** ** Indexing and decimation *)

(** X20. Indexing reads the eigenbasis of the source although the result
    does not receive it.  When the selection of the geometry and of the
    geodesic matrix succeed and the read of the eigenbasis raises, indexing
    raises that exception; when indexing returns, the source is as that
    read left it, and the result has empty Laplacian, mass, normal and
    eigenbasis caches and the rank and type of the source. *)
Theorem getitem_reads_eigenbasis util idx m :
  (forall vf sub e m1,
      selected_geometry util m idx = Ok vf ->
      selected_geodesics m idx = Ok sub ->
      eigen util m = (Raise e, m1) ->
      __getitem__ util idx m = (Raise e, m1))
  /\ (forall res m',
         __getitem__ util idx m = (Ok res, m') ->
         (exists ev, eigen util m = (Ok ev, m'))
         /\ (__l res, __mass res, __normals res, __eigen res)
            = (SpEmpty, SpEmpty, empty_array, [empty_array; empty_array])
         /\ (__k res, __type res) = (__k m, __type m)).
Proof.
  split.
  - intros vf sub e m1 Hvf Hsub He. rewrite getitem_eq, Hvf, Hsub, He. reflexivity.
  - intros res m'. rewrite getitem_eq.
    destruct (selected_geometry util m idx); [|discriminate].
    destruct (selected_geodesics m idx); [|discriminate].
    destruct (eigen util m) as [[ev|e] m1]; [|discriminate].
    destruct (unpack2 ev); [|discriminate].
    destruct (MeshClass.carry_scalars _ _ _ _); [|discriminate].
    intros H. inversion H; subst. repeat split. exists ev. reflexivity.
Qed.

Lemma getitem_reads_eigenbasis_witness :
  exists m1,
    __getitem__ simple [0; 2]%Z fresh_triangle
    = (Raise (External "laplace_eigen_decomposition"), m1)
    /\ Nat.eqb (sp_size (__l m1)) 0 = false.
Proof.
  eexists. split.
  - refine (proj1 (getitem_reads_eigenbasis simple [0; 2]%Z fresh_triangle)
              _ _ _ _ eq_refl eq_refl _).
    reflexivity.
  - reflexivity.
Defined.

(** X21. Decimation never modifies the source and never reads its
    eigenbasis: whatever the outcome the source is as before, and a result
    is the geometry the decimation collaborator returned, with empty
    Laplacian, mass, normal and eigenbasis caches and the rank and type of
    the source. *)
Theorem decimate_leaves_source util n frac m :
  snd (decimate util n frac m) = m
  /\ (forall res idx,
         fst (decimate util n frac m) = Ok (res, idx) ->
         vedo_decimate util (__v m) (__f m) n frac = Ok (__v res, __f res, idx)
         /\ (__l res, __mass res, __normals res, __eigen res)
            = (SpEmpty, SpEmpty, empty_array, [empty_array; empty_array])
         /\ (__k res, __type res) = (__k m, __type m)).
Proof.
  rewrite decimate_eq.
  destruct (vedo_decimate util (__v m) (__f m) n frac) as [[[dv df] i]|e];
    [|split; [reflexivity|discriminate]].
  destruct (selected_geodesics m i); [|split; [reflexivity|discriminate]].
  destruct (MeshClass.carry_scalars _ _ _ _);
    [|split; [reflexivity|discriminate]].
  split; [reflexivity|]. simpl. intros res idx H. inversion H; subst.
  repeat split.
Qed.

Lemma decimate_leaves_source_witness :
  exists res idx,
    fst (decimate simple None None fresh_triangle) = Ok (res, idx)
    /\ snd (decimate simple None None fresh_triangle) = fresh_triangle
    /\ __eigen res = [empty_array; empty_array]
    /\ __k res = 2%Z.
Proof.
  assert (E : exists res idx,
             fst (decimate simple None None fresh_triangle) = Ok (res, idx))
    by (do 2 eexists; cbv; reflexivity).
  destruct E as (res & idx & E). exists res, idx.
  destruct (decimate_leaves_source simple None None fresh_triangle) as [Hs Hr].
  destruct (Hr res idx E) as (_ & Hc & Hk).
  split; [exact E|]. split; [exact Hs|].
  inversion Hc. inversion Hk. split; reflexivity.
Defined.

(** ** Upsampling *)

Section Upsampling.

Variable util : Util.

Lemma subdivide_loop_done fuel target sv sf idx :
  (target <= Z.of_nat (shape0 sv))%Z ->
  subdivide_loop util fuel target sv sf idx = Some (Ok (sv, sf, idx)).
Proof.
  intros H. destruct fuel; simpl;
    destruct (Z.ltb_spec (Z.of_nat (shape0 sv)) target); try lia; reflexivity.
Qed.

Lemma subdivide_loop_post fuel target :
  forall sv sf idx rv rf ridx,
    subdivide_loop util fuel target sv sf idx = Some (Ok (rv, rf, ridx)) ->
    (target <= Z.of_nat (shape0 rv))%Z
    /\ (ridx = idx \/ (Z.of_nat (shape0 sv) < target)%Z).
Proof.
  induction fuel as [|fuel IH]; intros sv sf idx rv rf ridx; simpl;
    destruct (Z.ltb_spec (Z.of_nat (shape0 sv)) target) as [Hlt|Hge].
  - discriminate.
  - intros H. inversion H; subst. split; [lia|left; reflexivity].
  - destruct (vedo_subdivide util sv sf) as [[[sv' sf'] idx']|e]; [|discriminate].
    intros H. apply IH in H. destruct H as [H1 _]. split; [exact H1|right; exact Hlt].
  - intros H. inversion H; subst. split; [lia|left; reflexivity].
Qed.

Lemma subdivide_loop_fuel fuel extra target :
  forall sv sf idx r,
    subdivide_loop util fuel target sv sf idx = Some r ->
    subdivide_loop util (fuel + extra) target sv sf idx = Some r.
Proof.
  induction fuel as [|fuel IH]; intros sv sf idx r; simpl.
  - destruct (Z.ltb_spec (Z.of_nat (shape0 sv)) target) as [Hlt|Hge];
      [discriminate|].
    intros H. rewrite subdivide_loop_done by assumption. exact H.
  - destruct (Z.ltb_spec (Z.of_nat (shape0 sv)) target) as [Hlt|Hge];
      [|auto].
    destruct (vedo_subdivide util sv sf) as [[[sv' sf'] idx']|e]; [|auto].
    apply IH.
Qed.

Lemma subdivide_loop_stalls fuel target sv sf i0 :
  vedo_subdivide util sv sf = Ok (sv, sf, i0) ->
  (Z.of_nat (shape0 sv) < target)%Z ->
  forall idx, subdivide_loop util fuel target sv sf idx = None.
Proof.
  intros Hs Hlt. induction fuel as [|fuel IH]; intros idx; simpl;
    destruct (Z.ltb_spec (Z.of_nat (shape0 sv)) target); try lia.
  - reflexivity.
  - rewrite Hs. apply IH.
Qed.

(** X22. Upsampling to a target that the Mesh already meets raises: with
    [target <= N] the subdivision loop has no pass, the index array it
    would bind stays unbound, and after the geodesic matrix has been read
    (and cached) and extrapolated the return statement raises
    UnboundLocalError. *)
Theorem upsample_without_subdivision fuel target m gm m1 ug :
  (target <= Z.of_nat (N m))%Z ->
  g util m = (Ok gm, m1) ->
  extrapolate_geodesic_matrix util (__v m) (__v m) gm (__f m) = Ok ug ->
  upsample util fuel target m = Some (Raise UnboundLocalError, m1).
Proof.
  intros Ht Hg Hx. unfold upsample, copy.
  rewrite subdivide_loop_done by exact Ht.
  unfold v, f, k, type. run. unfold bind. rewrite Hg.
  destruct (g_effect util m) as [x Hm1]. rewrite Hg in Hm1. simpl in Hm1.
  subst m1. unfold lift. simpl. rewrite Hx. reflexivity.
Qed.

(** X23. An upsampling that returns has subdivided at least once and
    reached the target: the source had fewer vertices than [target], the
    result has at least [target], and more fuel for the loop gives the same
    result. *)
Theorem upsample_reaches_target fuel target m res idx m' :
  upsample util fuel target m = Some (Ok (res, idx), m') ->
  (Z.of_nat (N m) < target <= Z.of_nat (N res))%Z
  /\ forall extra,
       upsample util (fuel + extra) target m = Some (Ok (res, idx), m').
Proof.
  intros H. pose proof H as H0.
  apply upsample_inv in H. destruct H as (uv & uf & gm & ug & Hl & Hg & Hx & ->).
  pose proof (subdivide_loop_post _ _ _ _ _ Hl) as [Hpost Hran].
  split.
  - split; [|exact Hpost].
    destruct Hran as [Hran|Hran]; [discriminate|exact Hran].
  - intros extra. revert H0. unfold upsample, copy.
    rewrite (subdivide_loop_fuel _ extra _ _ _ _ Hl), Hl. auto.
Qed.

(** X24. The loop of [upsample] relies on the subdivision to add
    vertices: when the subdivision collaborator returns the mesh it was
    given and the target is not met, the loop has no last pass, whatever
    the number of passes allowed. *)
Theorem upsample_stalls target m i0 :
  vedo_subdivide util (__v m) (__f m) = Ok (__v m, __f m, i0) ->
  (Z.of_nat (N m) < target)%Z ->
  forall fuel, upsample util fuel target m = None.
Proof.
  intros Hs Hlt fuel. unfold upsample, copy.
  rewrite (@subdivide_loop_stalls fuel target (__v m) (__f m) i0 Hs Hlt None).
  reflexivity.
Qed.

End Upsampling.

Lemma upsample_without_subdivision_witness :
  upsample simple 5 3 fresh_triangle
  = Some (Raise UnboundLocalError, with_g (zeros 3) fresh_triangle).
Proof.
  apply (@upsample_without_subdivision simple 5 3 fresh_triangle
           (zeros 3) (with_g (zeros 3) fresh_triangle) (zeros 3));
    [simpl; lia|reflexivity|reflexivity].
Defined.

Lemma upsample_reaches_target_witness :
  exists res idx m',
    upsample simple 1 4 cached_triangle = Some (Ok (res, idx), m')
    /\ (3 < 4 <= Z.of_nat (N res))%Z
    /\ upsample simple (1 + 7) 4 cached_triangle = Some (Ok (res, idx), m').
Proof.
  assert (E : exists res idx m',
             upsample simple 1 4 cached_triangle = Some (Ok (res, idx), m'))
    by (do 3 eexists; reflexivity).
  destruct E as (res & idx & m' & E). exists res, idx, m'.
  destruct (@upsample_reaches_target simple 1 4 cached_triangle res idx m' E)
    as [H1 H2].
  split; [exact E|]. split; [exact H1|apply H2].
Defined.

Lemma upsample_stalls_witness :
  upsample MeshMethods.stalled 1000 4 cached_triangle = None.
Proof.
  apply (@upsample_stalls MeshMethods.stalled 4 cached_triangle [] eq_refl).
  simpl. lia.
Defined.

(** ** Normalisation *)

Lemma fdiv_by_zero_not_finite x : ~ finite (fdiv x (Num 0)).
Proof.
  destruct x as [a| | |]; simpl;
    try rewrite (proj2 (FilterProps.is_zero_true 0) eq_refl); simpl.
  - unfold inf_of_sign. destruct (is_zero a); [|destruct (is_pos a)]; simpl; tauto.
  - tauto.
  - tauto.
  - tauto.
Qed.

Lemma fdiv_by_nan_not_finite x : ~ finite (fdiv x NaN).
Proof. destruct x; simpl; tauto. Qed.

Lemma entries_array_map {A B} (h : A -> B) (a : ndarray A) :
  MeshMethods.entries (MeshMethods.array_map h a)
  = map h (MeshMethods.entries a).
Proof.
  destruct a as [xs|rows]; simpl; [reflexivity|].
  rewrite concat_map. reflexivity.
Qed.

(** X25. Normalising a Mesh whose area is zero or negative does not
    raise: the square root is 0.0 or NaN, the divisions go through, and
    afterwards no vertex coordinate and no entry of the geodesic matrix is a
    finite number; the vertex count is unchanged. *)
Theorem normalise_degenerate (area : vertices -> faces -> result float64)
    m (a : R) :
  area (__v m) (__f m) = Ok (Num a) ->
  (a <= 0)%R ->
  fst (MeshMethods.normalise area m) = Ok tt
  /\ Forall (fun e => ~ finite e)
            (MeshMethods.entries (__v (snd (MeshMethods.normalise area m))))
  /\ Forall (fun e => ~ finite e)
            (MeshMethods.entries (__g (snd (MeshMethods.normalise area m))))
  /\ N (snd (MeshMethods.normalise area m)) = N m.
Proof.
  intros Ha Hle. unfold MeshMethods.normalise. run. rewrite Ha. simpl.
  assert (Hn : forall x, ~ finite (fdiv x (if Rlt_dec a 0 then NaN else Num (sqrt a)))).
  { intros x. destruct (Rlt_dec a 0).
    - apply fdiv_by_nan_not_finite.
    - replace a with 0%R by lra. rewrite sqrt_0. apply fdiv_by_zero_not_finite. }
  repeat split.
  - rewrite entries_array_map. apply Forall_map. apply Forall_forall.
    intros x _. apply Hn.
  - rewrite entries_array_map. apply Forall_map. apply Forall_forall.
    intros x _. apply Hn.
  - unfold N. destruct (__v m); simpl; rewrite length_map; reflexivity.
Qed.

Lemma normalise_degenerate_witness :
  fst (MeshMethods.normalise (fun _ _ => Ok (Num 0)) cached_triangle) = Ok tt
  /\ Forall (fun e => ~ finite e)
       (MeshMethods.entries
          (__v (snd (MeshMethods.normalise (fun _ _ => Ok (Num 0)) cached_triangle))))
  /\ Forall (fun e => ~ finite e)
       (MeshMethods.entries
          (__g (snd (MeshMethods.normalise (fun _ _ => Ok (Num 0)) cached_triangle))))
  /\ N (snd (MeshMethods.normalise (fun _ _ => Ok (Num 0)) cached_triangle)) = 3%nat.
Proof.
  apply (@normalise_degenerate (fun _ _ => Ok (Num 0)) cached_triangle 0%R eq_refl).
  lra.
Defined.

(** ** Geodesic matrices after sub-selection *)

Lemma submatrix_size {A} (a : ndarray A) (idx : list Z) (sub : ndarray A) :
  submatrix a idx = Ok sub -> idx <> [] -> size sub <> O.
Proof.
  unfold submatrix. intros H Hidx.
  destruct (index_rows a idx) as [r|e] eqn:Hr; simpl in H; [|discriminate].
  destruct r as [xs|rows]; simpl in H; [discriminate|].
  destruct (take_cols rows idx) as [d|e] eqn:Hd; simpl in H; [|discriminate].
  injection H as <-.
  destruct a as [ys|arows]; simpl in Hr.
  - destruct (take ys idx); discriminate.
  - destruct (take arows idx) as [rows'|e] eqn:Ht; simpl in Hr; [|discriminate].
    injection Hr as <-.
    destruct (@FilterProps.take_ok _ (fun _ => True) arows idx rows') as [_ Hlen].
    { apply Forall_forall. auto. }
    { exact Ht. }
    destruct (@FilterProps.take_cols_ok _ (fun _ => True) rows' idx d) as [Hrows Hld].
    { apply Forall_forall. intros row _. apply Forall_forall. auto. }
    { exact Hd. }
    simpl. destruct idx as [|i idx]; [congruence|].
    destruct d as [|row d]; [simpl in *; congruence|].
    inversion Hrows as [|? ? [_ Hrow] _]; subst.
    destruct row; [discriminate Hrow|]. simpl. discriminate.
Qed.

(** X26. A sub-selected geodesic matrix is served from the cache: when a
    Mesh with a cached geodesic matrix is indexed or decimated to a
    non-empty index array, a read of the geodesic matrix of the result
    returns [G[idx][:, idx]] and calls no collaborator. *)
Theorem subselected_geodesics_are_cached util m :
  Nat.eqb (size (__g m)) 0 = false ->
  (forall idx res m',
      __getitem__ util idx m = (Ok res, m') -> idx <> [] ->
      forall util', exists sub,
        submatrix (__g m) idx = Ok sub /\ g util' res = (Ok sub, res))
  /\ (forall n frac res idx m',
         decimate util n frac m = (Ok (res, idx), m') -> idx <> [] ->
         forall util', exists sub,
           submatrix (__g m) idx = Ok sub /\ g util' res = (Ok sub, res)).
Proof.
  intros Hg. split.
  - intros idx res m' H Hidx util'. rewrite getitem_eq in H.
    destruct (selected_geometry util m idx); [|discriminate].
    unfold selected_geodesics in H. rewrite Hg in H.
    destruct (submatrix (__g m) idx) as [sub|e] eqn:Hsub; [|discriminate].
    destruct (eigen util m) as [[ev|e] m1]; [|discriminate].
    destruct (unpack2 ev); [|discriminate].
    destruct (MeshClass.carry_scalars _ _ _ _); [|discriminate].
    inversion H; subst. exists sub. split; [reflexivity|].
    apply g_cached. simpl. apply Nat.eqb_neq.
    eapply submatrix_size; eauto.
  - intros n frac res idx m' H Hidx util'. rewrite decimate_eq in H.
    destruct (vedo_decimate util (__v m) (__f m) n frac) as [[[dv df] i]|e];
      [|discriminate].
    unfold selected_geodesics in H. rewrite Hg in H.
    destruct (submatrix (__g m) i) as [sub|e] eqn:Hsub; [|discriminate].
    destruct (MeshClass.carry_scalars _ _ _ _); [|discriminate].
    inversion H; subst. exists sub. split; [exact Hsub|].
    apply g_cached. simpl. apply Nat.eqb_neq.
    eapply submatrix_size; eauto.
Qed.

Lemma subselected_geodesics_are_cached_witness :
  exists res m' sub,
    __getitem__ unavailable [0; 2]%Z cached_triangle = (Ok res, m')
    /\ submatrix (__g cached_triangle) [0; 2]%Z = Ok sub
    /\ sub = Arr2 [[Num 0; Num 1]; [Num 1; Num 0]]
    /\ g unavailable res = (Ok sub, res).
Proof.
  assert (E : exists res m',
             __getitem__ unavailable [0; 2]%Z cached_triangle = (Ok res, m'))
    by (do 2 eexists; cbv; reflexivity).
  destruct E as (res & m' & E).
  destruct (proj1 (@subselected_geodesics_are_cached unavailable cached_triangle
                     eq_refl) _ _ _ E) with (util' := unavailable)
    as (sub & Hsub & Hg); [discriminate|].
  exists res, m', sub. split; [exact E|]. split; [exact Hsub|].
  split; [|exact Hg].
  cbv in Hsub. inversion Hsub. reflexivity.
Defined.

End MeshExtra.

(* ================================================================= *)
(** * Bounds on the kernel in rounded arithmetic *)

Module KernelBounds.

Import Filter FilterSpec Rounded.

Local Open Scope R_scope.

(** ** Rounding *)

Section Rounding.

Variable a : arith.
Hypothesis Ha : ieee_like a.

Lemma round_not_nan x : round a x <> NaN.
Proof.
  pose proof (@round_mono a Ha x x (Rle_refl x)) as H.
  intros E. rewrite E in H. exact H.
Qed.

Lemma round_nonneg x :
  0 <= x -> (exists r, round a x = Num r /\ 0 <= r) \/ round a x = PInf.
Proof.
  intros Hx. pose proof (@round_mono a Ha 0 x Hx) as H.
  rewrite (round_0 Ha) in H.
  destruct (round a x) as [r| | |]; simpl in H; try tauto.
  left. exists r. split; [reflexivity|exact H].
Qed.

Lemma round_nonpos x :
  x <= 0 -> (exists r, round a x = Num r /\ r <= 0) \/ round a x = NInf.
Proof.
  intros Hx. pose proof (@round_mono a Ha x 0 Hx) as H.
  rewrite (round_0 Ha) in H.
  destruct (round a x) as [r| | |]; simpl in H; try tauto.
  left. exists r. split; [reflexivity|exact H].
Qed.

Lemma round_unit x : 0 <= x <= 1 -> unit01 (round a x).
Proof.
  intros [H0 H1].
  pose proof (@round_mono a Ha 0 x H0) as L. rewrite (round_0 Ha) in L.
  pose proof (@round_mono a Ha x 1 H1) as U. rewrite (round_1 Ha) in U.
  destruct (round a x) as [r| | |]; simpl in *; tauto.
Qed.

Lemma inf_of_negative r : r < 0 -> inf_of_sign r = NInf.
Proof.
  intros Hr. unfold inf_of_sign. rewrite FilterProps.is_zero_false by lra.
  unfold is_pos. destruct (Rlt_dec 0 r); [exfalso; lra|reflexivity].
Qed.

(** The Gaussian of a non-negative square, finite or infinite. *)
Lemma gaussian_of_square z :
  (exists r, z = Num r /\ 0 <= r) \/ z = PInf ->
  unit01 (fexp64 a (fmul64 a (Num (-0.5)) z)).
Proof.
  assert (Hinf : unit01 (fexp64 a NInf)) by (simpl; lra).
  intros [(r & -> & Hr)| ->].
  - simpl. destruct (round_nonpos (x := -0.5 * r)) as [(r' & -> & Hr')| ->].
    + lra.
    + simpl. apply (exp64_unit Ha). exact Hr'.
    + exact Hinf.
  - simpl. rewrite inf_of_negative by lra. exact Hinf.
Qed.

Lemma gaussian64_unit e s :
  finite e -> 0 < s -> unit01 (gaussian64 a e (Num s)).
Proof.
  destruct e as [x| | |]; simpl; try tauto. intros _ Hs.
  unfold gaussian64, fdiv64. rewrite FilterProps.is_zero_false by lra.
  apply gaussian_of_square.
  destruct (round a (x / s)) as [u| | |] eqn:Hy.
  - simpl. apply round_nonneg. nra.
  - right. reflexivity.
  - right. reflexivity.
  - exfalso. exact (round_not_nan (x / s) Hy).
Qed.

Lemma gaussian_kernel64_unit (G : matrix) (s : R) :
  0 < s -> Forall (Forall finite) G ->
  Forall (Forall unit01) (gaussian_kernel64 a G (Num s)).
Proof.
  intros Hs HG. unfold gaussian_kernel64.
  apply Forall_map. eapply Forall_impl; [|exact HG].
  intros row Hrow. apply Forall_map. eapply Forall_impl; [|exact Hrow].
  intros e He. apply gaussian64_unit; assumption.
Qed.

(** ** The kernel before rescaling *)

Lemma Forall_map_from {A B} (P : B -> Prop) (h : nat -> A -> B) (l : list A) :
  forall p, (forall q x, In x l -> P (h q x)) -> Forall P (map_from p h l).
Proof.
  induction l as [|x l IH]; intros p H; simpl; constructor.
  - apply H. left. reflexivity.
  - apply IH. intros q y Hy. apply H. right. exact Hy.
Qed.

Lemma products_nonneg (A B : matrix) (n : nat) :
  Forall (fun row => Forall unit01 row /\ length row = n) A ->
  Forall (fun row => Forall unit01 row /\ length row = n) B ->
  Forall (Forall nonneg)
         (map_from 0 (fun p ra => map_from 0 (fun q rb => dot64 a p q ra rb) B) A).
Proof.
  intros HA HB. rewrite Forall_forall in HA, HB.
  apply Forall_map_from. intros p ra Hra.
  apply Forall_map_from. intros q rb Hrb.
  destruct (HA ra Hra) as [Ua La]. destruct (HB rb Hrb) as [Ub Lb].
  destruct (@dot64_range a Ha p q ra rb Ua Ub) as (r & Hd & Hr); [congruence|].
  rewrite Hd. exact Hr.
Qed.

(** ** Rescaling *)

Lemma rescale_zero (l : list float64) :
  Forall nonneg l ->
  (forall y, In (Num y) l -> y <= 0) ->
  Forall (fun e => e = NaN) (map (fun e => fdiv64 a e (Num 0)) l).
Proof.
  intros Hl Hub. apply Forall_map. rewrite Forall_forall in *.
  intros e He. specialize (Hl e He).
  destruct e as [r| | |]; simpl in Hl; try tauto.
  assert (r = 0) by (specialize (Hub r He); lra). subst r.
  simpl. unfold inf_of_sign.
  rewrite (proj2 (FilterProps.is_zero_true 0) eq_refl). reflexivity.
Qed.

Lemma rescale_unit (x : float64) (xs : list float64) (m : R) :
  Forall nonneg (x :: xs) ->
  0 < m -> In (Num m) (x :: xs) ->
  (forall y, In (Num y) (x :: xs) -> y <= m) ->
  Forall unit01 (map (fun e => fdiv64 a e (Num m)) (x :: xs))
  /\ fold_left fmax (map (fun e => fdiv64 a e (Num m)) xs) (fdiv64 a x (Num m))
     = Num 1.
Proof.
  intros Hl Hm Hin Hub.
  assert (Hunit : Forall unit01 (map (fun e => fdiv64 a e (Num m)) (x :: xs))).
  { apply Forall_map. rewrite Forall_forall in *. intros e He.
    specialize (Hl e He). destruct e as [r| | |]; simpl in Hl; try tauto.
    simpl. rewrite FilterProps.is_zero_false by lra.
    apply round_unit. specialize (Hub r He). split.
    - apply Rmult_le_pos; [exact Hl|]. left. apply Rinv_0_lt_compat. exact Hm.
    - apply (Rmult_le_reg_r m); [exact Hm|]. field_simplify; lra. }
  split; [exact Hunit|].
  destruct (FilterProps.max_finite
              (xs := map (fun e => fdiv64 a e (Num m)) xs)
              (x := fdiv64 a x (Num m))) as (r' & -> & Hin' & Hub').
  { eapply Forall_impl; [|exact Hunit]. intros [?| | |]; simpl; tauto. }
  f_equal. apply Rle_antisym.
  - rewrite Forall_forall in Hunit. apply (Hunit (Num r')). exact Hin'.
  - apply Hub'.
    change (In (Num 1) (map (fun e => fdiv64 a e (Num m)) (x :: xs))).
    replace (Num 1) with (fdiv64 a (Num m) (Num m));
      [exact (in_map (fun e => fdiv64 a e (Num m)) _ _ Hin)|].
    simpl. rewrite FilterProps.is_zero_false by lra.
    replace (m / m) with 1 by (field; lra). apply (round_1 Ha).
Qed.

End Rounding.

(** ** The arithmetics of the examples *)

Lemma sum_nonneg (l : list float64) :
  Forall nonneg l ->
  forall c, 0 <= c -> exists r, fold_left fadd l (Num c) = Num r /\ 0 <= r.
Proof.
  induction 1 as [|x l Hx _ IH]; intros c Hc; simpl.
  - exists c. split; [reflexivity|exact Hc].
  - destruct x as [u| | |]; simpl in Hx; try tauto.
    apply IH. lra.
Qed.

Lemma dot_rows_nonneg (u w : list float64) :
  Forall unit01 u -> Forall unit01 w ->
  exists r, dot_rows u w = Num r /\ 0 <= r.
Proof.
  intros Hu Hw. unfold dot_rows. apply sum_nonneg; [|lra].
  revert w Hw. induction Hu as [|x u Hx _ IH]; intros w Hw; [constructor|].
  destruct Hw as [|y w Hy Hw]; [constructor|]. simpl.
  constructor; [|apply IH; exact Hw].
  destruct x, y; simpl in *; try tauto. nra.
Qed.

Lemma exp_unit r : r <= 0 -> 0 <= exp r <= 1.
Proof.
  intros Hr. split; [left; apply exp_pos|].
  destruct Hr as [Hr| ->]; [|rewrite exp_0; lra].
  left. rewrite <- exp_0. apply exp_increasing. exact Hr.
Qed.

Lemma exact_ieee_like : ieee_like exact.
Proof.
  constructor; simpl.
  - intros x y H. exact H.
  - reflexivity.
  - reflexivity.
  - intros r Hr. apply exp_unit. exact Hr.
  - reflexivity.
  - intros _ _ u w Hu Hw _. apply dot_rows_nonneg; assumption.
Qed.

Lemma underflowing_ieee_like : ieee_like underflowing.
Proof.
  constructor; simpl.
  - intros x y H. exact H.
  - reflexivity.
  - reflexivity.
  - intros r Hr. destruct (Rlt_dec r (-746)); simpl; [lra|].
    apply exp_unit. exact Hr.
  - reflexivity.
  - intros _ _ u w Hu Hw _. apply dot_rows_nonneg; assumption.
Qed.

Lemma map_from_const {A B} (h : A -> B) (l : list A) :
  forall p, map_from p (fun _ => h) l = map h l.
Proof. induction l as [|x l IH]; intros p; simpl; [|rewrite IH]; reflexivity. Qed.

Lemma products_exact (A B : matrix) :
  forall p,
    map_from p (fun p ra => map_from 0 (fun q rb => dot64 exact p q ra rb) B) A
    = map (fun ra => map (fun rb => dot_rows ra rb) B) A.
Proof.
  induction A as [|ra A IH]; intros p; simpl; [reflexivity|].
  rewrite IH. f_equal.
  apply (map_from_const (fun rb => dot_rows ra rb)).
Qed.

(** Without rounding error the kernel is the kernel of [Filter]. *)
Lemma kernel64_exact gx gy ix iy sigma :
  product_manifold_kernel64 exact gx gy ix iy sigma
  = product_manifold_kernel gx gy ix iy sigma.
Proof.
  assert (Hg : forall G, gaussian_kernel64 exact G sigma = gaussian_kernel G sigma).
  { intros G. unfold gaussian_kernel64, gaussian_kernel.
    apply map_ext. intros row. apply map_ext. intros e.
    unfold gaussian64, gaussian, fsqr.
    assert (Hd : forall x y, fdiv64 exact x y = fdiv x y)
      by (intros [?| | |] [?| | |]; reflexivity).
    assert (Hm : forall x y, fmul64 exact x y = fmul x y)
      by (intros [?| | |] [?| | |]; reflexivity).
    rewrite Hd, !Hm. destruct (fmul _ _); reflexivity. }
  unfold product_manifold_kernel64, unscaled_kernel64, product_manifold_kernel.
  rewrite !Hg.
  destruct (take_cols (gaussian_kernel gx sigma) ix) as [A|e]; simpl; [|reflexivity].
  destruct (take_cols (gaussian_kernel gy sigma) iy) as [B|e]; simpl; [|reflexivity].
  unfold dot_T. destruct (Nat.eqb (length ix) (length iy)); simpl; [|reflexivity].
  pose proof (products_exact A B 0) as HP. simpl in HP. rewrite HP.
  destruct (amax _) as [m|e]; simpl; [|reflexivity].
  f_equal. apply map_ext. intros row. apply map_ext. intros e.
  destruct e as [?| | |], m as [?| | |]; reflexivity.
Qed.

(** ** The bound *)



(** ** Inputs on which an entry is nan or zero *)

(** Without landmarks every inner product is 0.0, whatever the
    arithmetic, and rescaling divides 0.0 by 0.0. *)
Lemma kernel64_without_landmarks (a : arith) :
  ieee_like a ->
  product_manifold_kernel64 a [[Num 0]] [[Num 0]] [] [] (Num 1) = Ok [[NaN]].
Proof.
  intros Ha. unfold product_manifold_kernel64, unscaled_kernel64. simpl.
  rewrite (dot64_nil Ha). simpl.
  unfold inf_of_sign. rewrite (proj2 (FilterProps.is_zero_true 0) eq_refl).
  reflexivity.
Qed.


End KernelBounds.
